(** * Mock-data generators and the uPlot canvas plugins of react_chart_test

    A shallow embedding of [src/components/mockData.js] (the synthetic
    dataset generators and their dispatch table), of the [barPlugin],
    [gaugePlugin] and [heatmapPlugin] drawing hooks of
    [src/components/UPlotDemo.jsx] with the configurations that feed them,
    and of the heat-map, treemap and gauge cases of the adapters in
    [src/components/ApexDemo.jsx] and [src/components/ChartjsDemo.jsx].

    Conventions of the embedding.
    - A JavaScript number is modelled by an exact rational ([Q]): the
      finite doubles without their rounding error.  NaN and the infinities
      are outside the model.  A number the code obtains from [Math.floor],
      [Math.round] or a loop counter is integral and is kept as [Z] or
      [nat].
    - [Math.random()] reads the next element of an oracle sequence
      [random : nat -> Q]; the number of draws made so far is the state
      threaded through every generator.
    - The 2D drawing context is the state threaded through a drawing hook:
      its style properties and the list of primitives drawn so far.
    - A JavaScript exception is the [Throw] outcome of the monad [M].
    - A configuration object is a finite map from property names to
      numbers; an absent key is an [undefined] property, which triggers the
      default of the destructuring pattern.
    - An array is a list; the engine's limits on the length of an array
      and on memory are outside the model. *)

From stdpp Require Import base option list strings gmap sorting pretty.
From Stdlib Require Import ZArith QArith Qround Lqa Lia.

Local Open Scope Q_scope.

(** ** Numbers *)

Definition Math_max (a b : Q) : Q := if Qlt_le_dec a b then b else a.
Definition Math_min (a b : Q) : Q := if Qlt_le_dec b a then b else a.
Definition Math_abs (a : Q) : Q := if Qlt_le_dec a 0 then - a else a.
Definition Math_floor (a : Q) : Z := Qfloor a.

(** [Math.round]: the nearest integer, a tie going towards +infinity. *)
Definition Math_round (a : Q) : Z := Qfloor (a + (1 # 2)).

(** The numeric value of a natural-number loop counter. *)
Definition num (i : nat) : Q := inject_Z (Z.of_nat i).

(** [Number(x.toFixed(2))].  [toFixed] picks the integer [n] for which
    [n / 100] is closest to the magnitude of [x] (the larger [n] on a tie)
    and keeps the sign; from 1e21 on it prints the number itself. *)
Definition toFixed2 (x : Q) : Q :=
  if Qlt_le_dec (Math_abs x) 1e21 then
    if Qlt_le_dec x 0
    then - (inject_Z (Math_round (- x * 100)) / 100)
    else inject_Z (Math_round (x * 100)) / 100
  else x.

(** [ToLength] of [Array.from({ length: n }, ...)]: truncation, floored at 0. *)
Definition ToLength (n : Q) : nat := Z.to_nat (Qfloor n).

(** The counters [i = lo, lo+1, ...] visited by
    [for (let i = lo; i < n; i++)]. *)
Definition range (lo : nat) (n : Q) : list nat :=
  seq lo (Z.to_nat (Qceiling n) - lo).

(** ** Exceptions, outcomes and the state monad *)

(** [Error] carries its message; the messages of the errors the engine
    itself raises are implementation-defined and are not modelled. *)
Inductive exn :=
| Error (message : string)
| TypeError
| RangeError.

Inductive outcome (S A : Type) :=
| Ret (a : A) (s : S)
| Throw (e : exn).
Arguments Ret {S A} a s.
Arguments Throw {S A} e.

Definition M (S A : Type) : Type := S -> outcome S A.

Definition ret {S A} (a : A) : M S A := fun s => Ret a s.
Definition throw {S A} (e : exn) : M S A := fun _ => Throw e.
Definition bind {S A B} (m : M S A) (k : A -> M S B) : M S B :=
  fun s => match m s with
           | Ret a s' => k a s'
           | Throw e => Throw e
           end.

Notation "'let*' x := c1 'in' c2" := (bind c1 (fun x => c2))
  (at level 10, x pattern, c1 at level 100, c2 at level 200).

(** A [for] loop over the counters [idx], or [arr.forEach] over the
    elements [idx]; the body updates the local variables [acc]. *)
Fixpoint for_ {S I A} (idx : list I) (body : I -> A -> M S A) (acc : A) : M S A :=
  match idx with
  | [] => ret acc
  | i :: rest => let* acc' := body i acc in for_ rest body acc'
  end.

(** [Array.from({ length: n }, (_, i) => f i)] and [arr.map]. *)
Fixpoint mapM {S A B} (f : A -> M S B) (l : list A) : M S (list B) :=
  match l with
  | [] => ret []
  | x :: rest => let* y := f x in let* ys := mapM f rest in ret (y :: ys)
  end.

Definition Array_from {S A} (n : Q) (f : nat -> M S A) : M S (list A) :=
  mapM f (seq 0 (ToLength n)).

(** [arr[i]] for an integral number [i]: [None] is [undefined]. *)
Definition at_index {A} (arr : list A) (i : Z) : option A :=
  if (i <? 0)%Z then None else arr !! Z.to_nat i.

(** A method call [x.m()] on an array element: a [TypeError] when the
    element is [undefined]. *)
Definition defined {S A} (x : option A) : M S A :=
  match x with
  | Some v => ret v
  | None => throw TypeError
  end.

(** A configuration object and the destructuring default [{ k = d }]. *)
Abbreviation config := (gmap string Q).
Definition field (cfg : config) (k : string) (d : Q) : Q := default d (cfg !! k).

(** Template-literal rendering of an integral number (below 1e21 in
    magnitude, where JavaScript prints all the digits). *)
Definition str (z : Z) : string := pretty z.

(** [arr.sort((a, b) => a - b)]: the ascending sort of a numeric array. *)
Global Instance Qle_dec : RelDecision Qle.
Proof.
  intros x y. destruct (Qlt_le_dec y x) as [H|H].
  - right. apply Qlt_not_le, H.
  - left. exact H.
Defined.
Definition sort_ascending (arr : list Q) : list Q := merge_sort Qle arr.

(** ** The generators of mockData.js *)

Record candle := Candle { time : Q; open : Q; high : Q; low : Q; close : Q }.
Record box := Box { b_name : string; b_value : list Q }.
Record gnode := GNode { n_id : string; n_name : string; n_value : Z }.
Record link := Link { l_source : string; l_target : string; l_value : Z }.
Record graph := Graph { g_nodes : list gnode; g_links : list link }.
#[local] Set Warnings "-register-all".
Inductive node :=
  Node (name : string) (children : option (list node)) (value : option Z).
Record stage := Stage { s_name : string; s_value : Z }.

Definition t_name (n : node) : string := let 'Node x _ _ := n in x.
Definition t_children (n : node) : option (list node) := let 'Node _ x _ := n in x.
Definition t_value (n : node) : option Z := let 'Node _ _ x := n in x.

Section Generators.

(** The values returned by successive calls of [Math.random()]. *)
Variable random : nat -> Q.
(** The reading of [Date.now()]. *)
Variable now : Q.
(** The number of nested calls the engine's call stack still admits;
    exhausting it is the engine's [RangeError]. *)
Variable stack : nat.

Abbreviation Gen := (M nat).

Definition Math_random : Gen Q := fun s => Ret (random s) (S s).

Definition rand (min max : Q) : Gen Q :=
  let* r := Math_random in ret (r * (max - min) + min).
Definition randInt (min max : Q) : Gen Z :=
  let* r := rand min (max + 1) in ret (Math_floor r).

Definition generateCandlestick (cfg : config) : Gen (list candle) :=
  let points := field cfg "points" 120 in
  let start := field cfg "start" (now - 120 * 86400000) in
  let interval := field cfg "interval" 86400000 in
  let base := field cfg "base" 100 in
  let volatility := field cfg "volatility" 2 in
  let* (price, data) := for_ (range 0 points) (fun i '(price, data) =>
     let time := start + num i * interval in
     let open := price in
     let* step := rand (- volatility) volatility in
     let price := Math_max 1 (price + step) in
     let close := price in
     let* up := rand 0 (volatility * 1.5) in
     let high := Math_max open close + up in
     let* down := rand 0 (volatility * 1.5) in
     let low := Math_min open close - down in
     ret (price, data ++ [Candle time (toFixed2 open) (toFixed2 high)
                                 (toFixed2 low) (toFixed2 close)]))
     (base, []) in
  ret data.

Definition generateBoxplot (cfg : config) : Gen (list box) :=
  let groups := field cfg "groups" 5 in
  let samples := field cfg "samples" 30 in
  let min := field cfg "min" 0 in
  let max := field cfg "max" 100 in
  for_ (range 0 groups) (fun g out =>
    let* sample := Array_from samples (fun _ => rand min max) in
    let arr := sort_ascending sample in
    let q1 := at_index arr (Math_floor (samples * 0.25)) in
    let q2 := at_index arr (Math_floor (samples * 0.5)) in
    let q3 := at_index arr (Math_floor (samples * 0.75)) in
    let* v0 := defined (at_index arr 0) in
    let* v1 := defined q1 in
    let* v2 := defined q2 in
    let* v3 := defined q3 in
    let* v4 := defined (at_index arr (Z.of_nat (length arr) - 1)) in
    ret (out ++ [Box ("G" +:+ str (Z.of_nat g + 1))
                     [toFixed2 v0; toFixed2 v1; toFixed2 v2; toFixed2 v3;
                      toFixed2 v4]])) [].

Definition generateGraph (cfg : config) : Gen graph :=
  let nodes := field cfg "nodes" 30 in
  let extraLinks := field cfg "extraLinks" 20 in
  let* nodeArr := Array_from nodes (fun i =>
     let* v := randInt 1 10 in
     ret (GNode ("N" +:+ str (Z.of_nat i)) ("Node " +:+ str (Z.of_nat i)) v)) in
  let* links := for_ (range 1 nodes) (fun i links =>
     let* a := randInt 0 (num i - 1) in
     let* v := randInt 1 5 in
     ret (links ++ [Link ("N" +:+ str a) ("N" +:+ str (Z.of_nat i)) v])) [] in
  let* links := for_ (range 0 extraLinks) (fun k links =>
     let* a := randInt 0 (nodes - 1) in
     let* b := randInt 0 (nodes - 1) in
     if (a =? b)%Z then ret links
     else let* v := randInt 1 5 in
          ret (links ++ [Link ("N" +:+ str a) ("N" +:+ str b) v])) links in
  ret (Graph nodeArr links).

Fixpoint buildTree (stack : nat) (depth breadth : Q) (level : Z) (prefix : string)
  : Gen (list node) :=
  match stack with
  | O => throw RangeError
  | S stack' =>
    if Qeq_bool depth 0 then ret []
    else Array_from breadth (fun i =>
      let name := prefix +:+ str level +:+ "-" +:+ str (Z.of_nat i) in
      let* children := buildTree stack' (depth - 1) breadth (level + 1) prefix in
      let* value := match children with
                    | [] => let* v := randInt 10 100 in ret (Some v)
                    | _ :: _ => ret None
                    end in
      ret (Node name
                (match children with [] => None | _ :: _ => Some children end)
                value))
  end.

Definition generateTree (cfg : config) : Gen node :=
  let depth := field cfg "depth" 3 in
  let breadth := field cfg "breadth" 3 in
  let* children := buildTree stack depth breadth 0 "T" in
  ret (Node "root" (Some children) None).
Definition generateTreemap := generateTree.
Definition generateSunburst := generateTree.

Definition generateFunnel (cfg : config) : Gen (list stage) :=
  let stages := field cfg "stages" 5 in
  let startValue := field cfg "startValue" 1000 in
  let drop := field cfg "drop" 0.25 in
  let* (current, data) := for_ (range 0 stages) (fun i '(current, data) =>
     let data := data ++ [Stage ("Stage" +:+ str (Z.of_nat i + 1))
                                (Math_round current)] in
     let* r := rand 0.8 1.2 in
     ret (current * (1 - drop * r), data))
     (startValue, []) in
  ret data.

(** *** The dispatch table *)

(** The dispatch does not depend on what ten of the generators do:
    [others] stands for what a call of one of them does. *)
Variable other : Type.
Variable others : string -> config -> Gen other.

Inductive data :=
| Candles (rows : list candle)
| Boxes (groups : list box)
| GraphData (g : graph)
| TreeData (root : node)
| Stages (stages : list stage)
| Other (o : other)
| Str (s : string)
| Obj (o : config).

(** The function objects the table refers to; [generateMatrix],
    [generateTreemap] and [generateSunburst] are aliases. *)
Inductive generator :=
| GenLine | GenBar | GenPie | GenScatter | GenCandlestick | GenRadar
| GenBoxplot | GenHeatmap | GenGraph | GenTree | GenSankey | GenFunnel
| GenGauge | GenPictorialBar | GenCalendar.

Definition GENERATORS : list (string * generator) :=
  [ ("line", GenLine); ("bar", GenBar); ("pie", GenPie);
    ("scatter", GenScatter); ("candlestick", GenCandlestick);
    ("radar", GenRadar); ("boxplot", GenBoxplot); ("heatmap", GenHeatmap);
    ("graph", GenGraph); ("tree", GenTree); ("treemap", GenTree);
    ("sunburst", GenTree); ("sankey", GenSankey); ("funnel", GenFunnel);
    ("gauge", GenGauge); ("pictorialBar", GenPictorialBar);
    ("calendar", GenCalendar); ("matrix", GenHeatmap) ].

(** [gen(config)] for a function of the table. *)
Definition call (gen : generator) (cfg : config) : Gen data :=
  match gen with
  | GenCandlestick => let* r := generateCandlestick cfg in ret (Candles r)
  | GenBoxplot => let* r := generateBoxplot cfg in ret (Boxes r)
  | GenGraph => let* r := generateGraph cfg in ret (GraphData r)
  | GenTree => let* r := generateTree cfg in ret (TreeData r)
  | GenFunnel => let* r := generateFunnel cfg in ret (Stages r)
  | GenLine => let* r := others "generateLine" cfg in ret (Other r)
  | GenBar => let* r := others "generateBar" cfg in ret (Other r)
  | GenPie => let* r := others "generatePie" cfg in ret (Other r)
  | GenScatter => let* r := others "generateScatter" cfg in ret (Other r)
  | GenRadar => let* r := others "generateRadar" cfg in ret (Other r)
  | GenHeatmap => let* r := others "generateHeatmap" cfg in ret (Other r)
  | GenSankey => let* r := others "generateSankey" cfg in ret (Other r)
  | GenGauge => let* r := others "generateGauge" cfg in ret (Other r)
  | GenPictorialBar => let* r := others "generatePictorialBar" cfg in ret (Other r)
  | GenCalendar => let* r := others "generateCalendar" cfg in ret (Other r)
  end.

(** [GENERATORS] is an object literal, so a property read that finds no
    own property continues in [Object.prototype]. *)
Definition Object_prototype : list string :=
  [ "constructor"; "__defineGetter__"; "__defineSetter__"; "hasOwnProperty";
    "__lookupGetter__"; "__lookupSetter__"; "isPrototypeOf";
    "propertyIsEnumerable"; "toString"; "valueOf"; "__proto__";
    "toLocaleString" ].

Inductive member :=
| Own (gen : generator)
| Inherited (key : string).

Fixpoint own_property (table : list (string * generator)) (key : string)
  : option generator :=
  match table with
  | [] => None
  | (k, g) :: rest => if String.eqb k key then Some g else own_property rest key
  end.

(** [GENERATORS[type]]; [None] is [undefined]. *)
Definition GENERATORS_get (type : string) : option member :=
  match own_property GENERATORS type with
  | Some g => Some (Own g)
  | None => if bool_decide (type ∈ Object_prototype)
            then Some (Inherited type) else None
  end.

(** [gen(config)] for an inherited member, called without a receiver:
    [Object.prototype.toString] answers for [undefined], [Object] returns
    its argument, the other methods fail to convert the missing receiver
    to an object, and the [__proto__] value is not callable. *)
Definition call_inherited (key : string) (cfg : config) : Gen data :=
  if String.eqb key "toString" then ret (Str "[object Undefined]")
  else if String.eqb key "constructor" then ret (Obj cfg)
  else throw TypeError.

Definition buildMock (type : string) (config : option config) : Gen data :=
  let config := default ∅ config in
  match GENERATORS_get type with
  | None => throw (Error ("Unknown mock type: " +:+ type))
  | Some (Own gen) => call gen config
  | Some (Inherited key) => call_inherited key config
  end.

(** An element of the request array: a string, a non-null object with
    its [type] (a string, or absent) and its [config] (an object, or
    absent or falsy), or any other value ([null], [undefined], a number,
    a boolean, a function). *)
Inductive request :=
| RString (r : string)
| RObject (type : option string) (config : option config)
| ROther.

(** [r.type] as the property key and message text [buildMock] makes of it. *)
Definition type_of (type : option string) : string := default "undefined" type.

Definition buildMockBundle (requests : option (list request))
  : Gen (gmap string data) :=
  let requests := default [] requests in
  for_ requests (fun r bundle =>
    match r with
    | RString r =>
        let* v := buildMock r (Some ∅) in ret (<[r := v]> bundle)
    | RObject type config =>
        let* v := buildMock (type_of type) (Some (default ∅ config)) in
        ret (<[type_of type := v]> bundle)
    | ROther => ret bundle
    end) ∅.

End Generators.

(** ** The drawing hooks of UPlotDemo.jsx *)

Definition palette : list string :=
  [ "#2563eb"; "#16a34a"; "#dc2626"; "#9333ea"; "#f59e0b"; "#0d9488";
    "#be123c"; "#0891b2"; "#f472b6"; "#475569" ].
Definition palette_at (i : nat) : string :=
  default "" (palette !! (i mod length palette)%nat).

Inductive primitive :=
| FillRect (style : string) (x y w h : Q)
| FillText (style font align baseline text : string) (x y : Q).

Record Canvas := MkCanvas {
  fillStyle : string; font : string; textAlign : string;
  textBaseline : string; drawn : list primitive }.

Abbreviation Draw := (M Canvas).

Definition set_fillStyle (v : string) : Draw unit := fun c =>
  Ret tt (MkCanvas v (font c) (textAlign c) (textBaseline c) (drawn c)).
Definition set_font (v : string) : Draw unit := fun c =>
  Ret tt (MkCanvas (fillStyle c) v (textAlign c) (textBaseline c) (drawn c)).
Definition set_textAlign (v : string) : Draw unit := fun c =>
  Ret tt (MkCanvas (fillStyle c) (font c) v (textBaseline c) (drawn c)).
Definition set_textBaseline (v : string) : Draw unit := fun c =>
  Ret tt (MkCanvas (fillStyle c) (font c) (textAlign c) v (drawn c)).
Definition fillRect (x y w h : Q) : Draw unit := fun c =>
  Ret tt (MkCanvas (fillStyle c) (font c) (textAlign c) (textBaseline c)
                   (drawn c ++ [FillRect (fillStyle c) x y w h])).
Definition fillText (text : string) (x y : Q) : Draw unit := fun c =>
  Ret tt (MkCanvas (fillStyle c) (font c) (textAlign c) (textBaseline c)
                   (drawn c ++ [FillText (fillStyle c) (font c) (textAlign c)
                                         (textBaseline c) text x y])).

Inductive scale := x_scale | y_scale.
Record BBox := MkBBox { left : Q; top : Q; width : Q; height : Q }.

(** The plot object handed to a [draw] hook: the aligned data, the series
    options (only their number matters here), and what the library owns,
    the value-to-canvas-pixel transform and the plotting area. *)
Record uPlot := MkPlot {
  u_data : list (list (option Q));
  u_series : list string;
  valToPos : Q -> scale -> Q;
  bbox : BBox }.

Definition barPlugin_draw (u : uPlot) : Draw unit :=
  let seriesCount := (Z.of_nat (length (u_series u)) - 1)%Z in
  if (seriesCount <=? 0)%Z then ret tt else
  let* xVals := defined (u_data u !! 0%nat) in
  let len := length xVals in
  if (len =? 0)%nat then ret tt else
  let gap := if (1 <? len)%nat
             then valToPos u 1 x_scale - valToPos u 0 x_scale else 60 in
  let groupWidth := gap * 0.8 in
  let barWidth := groupWidth / inject_Z seriesCount in
  for_ (seq 0 len) (fun i _ =>
    let xPos := valToPos u (num i) x_scale in
    let leftStart := xPos - groupWidth / 2 in
    for_ (seq 1 (Z.to_nat seriesCount)) (fun s _ =>
      let* column := defined (u_data u !! s) in
      match column !! i with
      | None | Some None => ret tt
      | Some (Some val) =>
          let yPos := valToPos u val y_scale in
          let yZero := valToPos u 0 y_scale in
          let height := Math_abs (yZero - yPos) in
          let* _ := set_fillStyle (palette_at (s - 1)) in
          fillRect (inject_Z (Math_round (leftStart + num (s - 1) * barWidth)))
                   (inject_Z (Math_round (Math_min yPos yZero)))
                   (inject_Z (Math_round (barWidth - 2)))
                   (inject_Z (Math_round height))
      end) tt) tt.

Record gauge := Gauge { g_value : Q; g_min : Q; g_max : Q }.

Section Gauge.

(** The string the engine prints for a number, [`${max}`]. *)
Variable Number_toString : Q -> string.

(** [x.toFixed(1)]. *)
Definition toFixed1 (x : Q) : string :=
  if Qlt_le_dec (Math_abs x) 1e21 then
    let n := Math_round (Math_abs x * 10) in
    (if Qlt_le_dec x 0 then "-" else "") +:+ str (n / 10) +:+ "." +:+ str (n mod 10)
  else Number_toString x.

(** The quotient is a finite number only for [max <> min]; the embedding
    is meant for that case. *)
Definition gaugePlugin_draw (rawData : gauge) (u : uPlot) : Draw unit :=
  let min := g_min rawData in
  let max := g_max rawData in
  let value := g_value rawData in
  let percent := (value - min) / (max - min) in
  let barHeight := 30 in
  let y := top (bbox u) + height (bbox u) / 2 - barHeight / 2 in
  let* _ := set_fillStyle "#f0f0f0" in
  let* _ := fillRect (left (bbox u)) y (width (bbox u)) barHeight in
  let* _ := set_fillStyle (palette_at 0) in
  let* _ := fillRect (left (bbox u)) y (width (bbox u) * percent) barHeight in
  let* _ := set_fillStyle "#333" in
  let* _ := set_font "14px sans-serif" in
  let* _ := set_textAlign "center" in
  let* _ := set_textBaseline "middle" in
  fillText (toFixed1 value +:+ " / " +:+ Number_toString max)
           (left (bbox u) + width (bbox u) / 2) (y + barHeight / 2).

End Gauge.

(** The canonical bar data and the [bar] case of [buildUplotConfig]. *)
Record BarSeries := MkBarSeries { bs_name : string; bs_data : list (option Q) }.
Record BarData := MkBarData { categories : list string; series : list BarSeries }.

Record Opts := MkOpts {
  o_data : list (list (option Q));
  o_series : list string }.

Definition buildUplotConfig_bar (raw : BarData) : Opts :=
  let xData := imap (fun i _ => Some (num i)) (categories raw) in
  let seriesData := map bs_data (series raw) in
  MkOpts (xData :: seriesData) ("" :: map bs_name (series raw)).

(** The plot the library builds from the options, on a given surface. *)
Definition plot (opts : Opts) (toPixel : Q -> scale -> Q) (box : BBox) : uPlot :=
  MkPlot (o_data opts) (o_series opts) toPixel box.

Definition blank : Canvas := MkCanvas "#000000" "10px sans-serif" "start" "alphabetic" [].

(** ** The other generators of mockData.js *)

(** All but [generateCalendar], whose dates are outside the number model. *)

Record line_series := LineSeries { ls_name : string; ls_data : list (Q * Q) }.
Record named := Named { nv_name : string; nv_value : Q }.
Record indicator := Indicator { i_name : string; i_max : Q }.
Record radar_series := RadarSeries { r_name : string; r_value : list Q }.
Record radar := Radar { indicators : list indicator; r_series : list radar_series }.
Record heatmap := Heatmap {
  xLabels : list string; yLabels : list string; cells : list (nat * nat * Q) }.
Record sankey := Sankey { sk_nodes : list string; sk_links : list link }.

(** [n % d] on numbers: the remainder has the sign of the dividend, and
    there is none ([NaN]) for a zero divisor. *)
Definition truncate (q : Q) : Z := if Qlt_le_dec q 0 then Qceiling q else Qfloor q.
Definition remainder (n d : Q) : option Q :=
  if Qeq_bool d 0 then None else Some (n - d * inject_Z (truncate (n / d))).

(** [arr[k]] for a number [k]: only a non-negative integer names an
    element. *)
Definition at_number {A} (arr : list A) (k : option Q) : option A :=
  match k with
  | None => None
  | Some q => if Qeq_bool q (inject_Z (Qfloor q)) then at_index arr (Qfloor q)
              else None
  end.

(** [while (test) body]: at most [fuel] passes; [None] when the test still
    holds after them. *)
Fixpoint while_ {St A} (fuel : nat) (test : A -> bool) (body : A -> M St A)
    (acc : A) : M St (option A) :=
  if test acc then
    match fuel with
    | O => ret None
    | Datatypes.S fuel' => let* acc' := body acc in while_ fuel' test body acc'
    end
  else ret (Some acc).

Section Archetypes.

Variable random : nat -> Q.
Variable now : Q.

Definition generateLine (cfg : config) : M nat (list line_series) :=
  let series := field cfg "series" 2 in
  let points := field cfg "points" 200 in
  let start := field cfg "start" (now - points * 60000) in
  let interval := field cfg "interval" 60000 in
  let min := field cfg "min" 0 in
  let max := field cfg "max" 100 in
  let volatility := field cfg "volatility" 10 in
  for_ (range 0 series) (fun s out =>
    let* base := rand random min max in
    let* (base, data) := for_ (range 0 points) (fun i '(base, data) =>
       let* step := rand random (- volatility) volatility in
       let base := base + step in
       let base := if Qlt_le_dec base min then min else base in
       let base := if Qlt_le_dec max base then max else base in
       ret (base, data ++ [(start + num i * interval, toFixed2 base)]))
       (base, []) in
    ret (out ++ [LineSeries ("L" +:+ str (Z.of_nat s + 1)) data])) [].

Definition generateBar (cfg : config) : M nat BarData :=
  let categories := field cfg "categories" 8 in
  let series := field cfg "series" 2 in
  let min := field cfg "min" 10 in
  let max := field cfg "max" 120 in
  let* cats := Array_from categories (fun i =>
     ret ("C" +:+ str (Z.of_nat i + 1))) in
  let* ser := Array_from series (fun s =>
     let* data := mapM (fun _ : string =>
        let* r := rand random min max in ret (Some (toFixed2 r))) cats in
     ret (MkBarSeries ("S" +:+ str (Z.of_nat s + 1)) data)) in
  ret (MkBarData cats ser).

Definition generatePie (cfg : config) : M nat (list named) :=
  let slices := field cfg "slices" 6 in
  let min := field cfg "min" 10 in
  let max := field cfg "max" 200 in
  Array_from slices (fun i =>
    let* r := rand random min max in
    ret (Named ("Slice" +:+ str (Z.of_nat i + 1)) (toFixed2 r))).

Definition generateScatter (cfg : config) : M nat (list (Q * Q)) :=
  let points := field cfg "points" 500 in
  let clusters := field cfg "clusters" 3 in
  let spread := field cfg "spread" 50 in
  let centerRange := field cfg "centerRange" 200 in
  let* centers := Array_from clusters (fun _ =>
     let* cx := rand random (- centerRange) centerRange in
     let* cy := rand random (- centerRange) centerRange in
     ret (cx, cy)) in
  for_ (range 0 points) (fun i data =>
    let* (cx, cy) := defined (at_number centers (remainder (num i) clusters)) in
    let* dx := rand random (- spread) spread in
    let* dy := rand random (- spread) spread in
    ret (data ++ [(toFixed2 (cx + dx), toFixed2 (cy + dy))])) [].

Definition generateRadar (cfg : config) : M nat radar :=
  let axes := field cfg "axes" 6 in
  let series := field cfg "series" 3 in
  let min := field cfg "min" 0 in
  let max := field cfg "max" 100 in
  let* indicators := Array_from axes (fun i =>
     ret (Indicator ("Dim" +:+ str (Z.of_nat i + 1)) max)) in
  let* data := Array_from series (fun s =>
     let* value := mapM (fun _ : indicator =>
        let* r := rand random min max in ret (toFixed2 r)) indicators in
     ret (RadarSeries ("R" +:+ str (Z.of_nat s + 1)) value)) in
  ret (Radar indicators data).

(** The two [forEach] loops visit the labels by index, row after row. *)
Definition generateHeatmap (cfg : config) : M nat heatmap :=
  let x := field cfg "x" 12 in
  let y := field cfg "y" 7 in
  let min := field cfg "min" 0 in
  let max := field cfg "max" 100 in
  let* xLabels := Array_from x (fun i => ret ("X" +:+ str (Z.of_nat i + 1))) in
  let* yLabels := Array_from y (fun i => ret ("Y" +:+ str (Z.of_nat i + 1))) in
  let* data := for_ (seq 0 (length yLabels)) (fun yi data =>
     for_ (seq 0 (length xLabels)) (fun xi data =>
       let* r := rand random min max in
       ret (data ++ [(xi, yi, toFixed2 r)])) data) [] in
  ret (Heatmap xLabels yLabels data).
Definition generateMatrix := generateHeatmap.

Definition generateSankey (fuel : nat) (cfg : config) : M nat (option sankey) :=
  let nodes := field cfg "nodes" 8 in
  let links := field cfg "links" 15 in
  let min := field cfg "min" 1 in
  let max := field cfg "max" 50 in
  let* nodeArr := Array_from nodes (fun i => ret ("N" +:+ str (Z.of_nat i))) in
  let* linkArr := while_ fuel
     (fun linkArr : list link =>
        if Qlt_le_dec (num (length linkArr)) links then true else false)
     (fun linkArr =>
        let* s := randInt random 0 (nodes - 2) in
        let* t := randInt random (inject_Z s + 1) (nodes - 1) in
        let* v := randInt random min max in
        ret (linkArr ++ [Link ("N" +:+ str s) ("N" +:+ str t) v])) [] in
  ret (Sankey nodeArr <$> linkArr).

Definition generateGauge (cfg : config) : M nat gauge :=
  let min := field cfg "min" 0 in
  let max := field cfg "max" 100 in
  let* r := rand random min max in
  ret (Gauge (toFixed2 r) min max).

Definition generatePictorialBar (cfg : config) : M nat (list named) :=
  let categories := field cfg "categories" 6 in
  let min := field cfg "min" 10 in
  let max := field cfg "max" 150 in
  let* cats := Array_from categories (fun i =>
     ret ("P" +:+ str (Z.of_nat i + 1))) in
  mapM (fun c => let* r := rand random min max in ret (Named c (toFixed2 r))) cats.

End Archetypes.

(** ** More of UPlotDemo.jsx *)

(** The [funnel] case of [buildUplotConfig]: one series of stage values. *)
Definition buildUplotConfig_funnel (raw : list stage) : Opts :=
  let xData := imap (fun i _ => Some (num i)) raw in
  let yData := map (fun r => Some (inject_Z (s_value r))) raw in
  MkOpts [xData; yData] ["Stages"; "Value"].

(** [Math.min(...values)] and [Math.max(...values)] of a non-empty array. *)
Definition minimum (v : Q) (vs : list Q) : Q := foldl Math_min v vs.
Definition maximum (v : Q) (vs : list Q) : Q := foldl Math_max v vs.

(** The heat cells.  Without cells nothing is drawn.  With cells, the cell
    size and the intensity are finite numbers only when both label lists are
    non-empty and the values are not all equal: otherwise a non-finite
    number reaches the canvas and the run leaves the number model
    ([None]). *)
Definition heatmapPlugin_draw (rawData : heatmap) (u : uPlot)
  : option (Draw unit) :=
  let cellWidth := width (bbox u) / num (length (xLabels rawData)) in
  let cellHeight := height (bbox u) / num (length (yLabels rawData)) in
  match map snd (cells rawData) with
  | [] => Some (ret tt)
  | v :: vs =>
    let minVal := minimum v vs in
    let maxVal := maximum v vs in
    if (length (xLabels rawData) =? 0)%nat || (length (yLabels rawData) =? 0)%nat
       || Qeq_bool maxVal minVal
    then None
    else Some (for_ (cells rawData) (fun '(x, y, value) _ =>
      let intensity := (value - minVal) / (maxVal - minVal) in
      let red := Math_round (intensity * 255) in
      let blue := Math_round ((1 - intensity) * 255) in
      let* _ := set_fillStyle ("rgb(" +:+ str red +:+ ", 100, " +:+ str blue +:+ ")") in
      fillRect (left (bbox u) + num x * cellWidth)
               (top (bbox u) + num y * cellHeight) cellWidth cellHeight) tt)
  end.

(** ** Consumers in ApexDemo.jsx and ChartjsDemo.jsx *)

(** [walk] of the [treemap] case of [mapToApex]: the leaves it pushes, in
    the order they are visited. *)
Fixpoint mapToApex_walk (n : node) : list (string * Z) :=
  match n with
  | Node name (Some (c :: cs)) _ =>
      (fix forEach (kids : list node) : list (string * Z) :=
         match kids with
         | [] => []
         | k :: rest => mapToApex_walk k ++ forEach rest
         end) (c :: cs)
  | Node name _ (Some v) => [(name, v)]
  | Node name _ None => []
  end.

(** The [heatmap] case of [mapToApex]: one series per y label, one point
    per x label, the value being that of the first cell found with these
    coordinates, or [null]. *)
Definition mapToApex_heatmap (raw : heatmap)
  : list (string * list (string * option Q)) :=
  imap (fun yi yl =>
    (yl, imap (fun xi xl =>
       let cell := find (fun d : nat * nat * Q =>
                     (d.1.1 =? xi)%nat && (d.1.2 =? yi)%nat) (cells raw) in
       (xl, snd <$> cell)) (xLabels raw))) (yLabels raw).

(** The [gauge] case of [buildConfig] in ChartjsDemo.jsx: the two segments
    of the doughnut.  [raw.max - raw.min || 1] replaces a zero range by 1. *)
Definition buildConfig_gauge (raw : gauge) : Q * Q :=
  let range := g_max raw - g_min raw in
  let pct := (g_value raw - g_min raw) / (if Qeq_bool range 0 then 1 else range) * 100 in
  (pct, 100 - pct).

(** ** Vocabulary of the statements *)

(** A leaf carries a value and has no [children] property. *)
Definition leaf (n : node) : Prop := t_children n = None /\ is_Some (t_value n).

(** [levels d k n]: below [n] there are [d] levels of nodes, every node
    that is not on the last level has exactly [k] children and no value,
    and the nodes of the last level are leaves. *)
Fixpoint levels (d k : nat) (n : node) : Prop :=
  match d with
  | O => leaf n
  | Datatypes.S d' =>
      t_value n = None /\
      exists kids, t_children n = Some kids /\ length kids = k /\
                   Forall (levels d' k) kids
  end.

(** [edge links a b]: some link leads from node [a] to node [b];
    [reachable] follows such links, any number of them. *)
Definition edge (links : list link) (a b : string) : Prop :=
  exists l, l ∈ links /\ l_source l = a /\ l_target l = b.
Definition reachable (links : list link) : string -> string -> Prop :=
  rtc (edge links).
Definition node_id (i : nat) : string := "N" +:+ str (Z.of_nat i).

(** The bundle key a request is filed under, if the request is a string
    or an object, and the configuration passed on for it. *)
Definition key_of (r : request) : option string :=
  match r with
  | RString k => Some k
  | RObject type _ => Some (type_of type)
  | ROther => None
  end.

(** The horizontal extent a filled rectangle covers (a negative width
    extends it to the left of [x]), and two rectangles sharing more than an
    edge of it. *)
Definition x_extent (p : primitive) : option (Q * Q) :=
  match p with
  | FillRect _ x _ w _ => Some (Math_min x (x + w), Math_max x (x + w))
  | FillText _ _ _ _ _ _ _ => None
  end.
Definition x_overlap (p q : primitive) : Prop :=
  exists lo1 hi1 lo2 hi2,
    x_extent p = Some (lo1, hi1) /\ x_extent q = Some (lo2, hi2) /\
    lo1 < hi2 /\ lo2 < hi1.

(** ** Sample inputs *)

(** Two sequences of random values: constantly 0.5, and one that wanders
    through the hundredths of [0, 1). *)
Definition half : nat -> Q := fun _ => 0.5.
Definition walk : nat -> Q := fun n => Z.of_nat (n * 37 mod 100) # 100.

(** Configurations. *)
Definition falling_candles : config := {[ "points" := 1; "volatility" := -2 ]}.
Definition fractional_samples : config := {[ "samples" := 1.5 ]}.
Definition tree_3_2 : config := {[ "depth" := 3; "breadth" := 2 ]}.
Definition funnel_5 : config :=
  {[ "stages" := 5; "startValue" := 1000; "drop" := 0.25 ]}.

Definition stub : string -> config -> M nat unit := fun _ _ => ret tt.

(** Bar data with 3 categories and 2 series, every value present. *)
Definition bars_3_2 (a1 a2 a3 b1 b2 b3 : Q) : BarData :=
  MkBarData ["C1"; "C2"; "C3"]
    [ MkBarSeries "S1" [Some a1; Some a2; Some a3];
      MkBarSeries "S2" [Some b1; Some b2; Some b3] ].

(** Plot surfaces: a linear x transform with [slope] pixels per unit and
    the y transform of a 400 pixel high plot; categories 1.25 and 100
    pixels apart. *)
Definition linear_surface (slope offset : Q) : Q -> scale -> Q := fun v sc =>
  match sc with
  | x_scale => slope * v + offset
  | y_scale => 400 - 3 * v
  end.
Definition narrow : Q -> scale -> Q := linear_surface 1.25 1.1.
Definition wide : Q -> scale -> Q := linear_surface 100 50.4.
Definition area : BBox := MkBBox 0 0 800 400.
Definition no_rendering : Q -> string := fun _ => "".

(** Configurations at the edges, a request list with an unknown name in
    second place, and a heat map of two cells. *)
Definition no_clusters : config := {[ "clusters" := 0 ]}.
Definition no_samples : config := {[ "samples" := 0 ]}.
Definition single_node : config := {[ "nodes" := 1; "links" := 3 ]}.
Definition half_depth : config := {[ "depth" := 2.5 ]}.
Definition unknown_second : list request := [RString "funnel"; RString "nope"].
Definition heat_2_1 : heatmap :=
  Heatmap ["X1"; "X2"] ["Y1"] [(0%nat, 0%nat, 1); (1%nat, 0%nat, 3)].

(** * Properties *)

(** ** Arithmetic of the number model *)

Ltac qlin := unfold Qdiv in *; change (/ 100) with (1 # 100) in *; lra.

Lemma Qfloor_bounds x : inject_Z (Qfloor x) <= x /\ x < inject_Z (Qfloor x) + 1.
Proof.
  split; [apply Qfloor_le|].
  pose proof (Qlt_floor x) as H. rewrite inject_Z_plus in H.
  change (inject_Z 1) with 1 in H. exact H.
Qed.

Lemma Qfloor_ge (z : Z) x : inject_Z z <= x -> (z <= Qfloor x)%Z.
Proof. intros H. rewrite <- (Qfloor_Z z). by apply Qfloor_resp_le. Qed.

Lemma Qfloor_lt (z : Z) x : x < inject_Z z -> (Qfloor x < z)%Z.
Proof. intros H. rewrite Zlt_Qlt. pose proof (Qfloor_bounds x). lra. Qed.

Lemma Math_round_lower a : a - (1 # 2) < inject_Z (Math_round a).
Proof. unfold Math_round. pose proof (Qfloor_bounds (a + (1 # 2))). lra. Qed.

Lemma Math_round_upper a : inject_Z (Math_round a) <= a + (1 # 2).
Proof. unfold Math_round. apply Qfloor_le. Qed.

Lemma Math_round_mono a b : a <= b -> (Math_round a <= Math_round b)%Z.
Proof. intros H. unfold Math_round. apply Qfloor_resp_le. lra. Qed.

Lemma Math_round_ge (z : Z) a : inject_Z z <= a -> (z <= Math_round a)%Z.
Proof. intros H. unfold Math_round. apply Qfloor_ge. lra. Qed.

Lemma Math_round_le (z : Z) a : a <= inject_Z z -> (Math_round a <= z)%Z.
Proof.
  intros H. unfold Math_round. apply Z.lt_succ_r, Qfloor_lt.
  unfold Z.succ. rewrite inject_Z_plus. change (inject_Z 1) with 1. lra.
Qed.

Lemma Math_max_spec a b :
  a <= Math_max a b /\ b <= Math_max a b /\ (Math_max a b = a \/ Math_max a b = b).
Proof. unfold Math_max. destruct (Qlt_le_dec a b); repeat split; auto; lra. Qed.

Lemma Math_min_spec a b :
  Math_min a b <= a /\ Math_min a b <= b /\ (Math_min a b = a \/ Math_min a b = b).
Proof. unfold Math_min. destruct (Qlt_le_dec b a); repeat split; auto; lra. Qed.

Lemma scaled_bounds a : 0 <= a -> a < 1e21 ->
  0 <= inject_Z (Math_round (a * 100)) / 100 <= 1e21.
Proof.
  intros H0 H1.
  assert (0 <= Math_round (a * 100))%Z as Hlo.
  { apply Math_round_ge. change (inject_Z 0) with 0. lra. }
  assert (Math_round (a * 100) <= 10 ^ 23)%Z as Hhi.
  { apply Math_round_le. change (inject_Z (10 ^ 23)) with (1e21 * 100). lra. }
  rewrite Zle_Qle in Hlo, Hhi.
  change (inject_Z 0) with 0 in Hlo.
  change (inject_Z (10 ^ 23)) with (1e21 * 100) in Hhi.
  qlin.
Qed.

Lemma scaled_mono a b : a <= b ->
  inject_Z (Math_round (a * 100)) / 100 <= inject_Z (Math_round (b * 100)) / 100.
Proof.
  intros H. assert (Math_round (a * 100) <= Math_round (b * 100))%Z as Hm.
  { apply Math_round_mono. lra. }
  rewrite Zle_Qle in Hm. qlin.
Qed.

(** Rounding to two decimals preserves the order. *)
Lemma toFixed2_mono x y : x <= y -> toFixed2 x <= toFixed2 y.
Proof.
  intros Hxy. unfold toFixed2, Math_abs.
  pose proof (scaled_bounds x). pose proof (scaled_bounds y).
  pose proof (scaled_bounds (- x)). pose proof (scaled_bounds (- y)).
  pose proof (scaled_mono x y). pose proof (scaled_mono (- y) (- x)).
  destruct (Qlt_le_dec x 0) as [Hx|Hx], (Qlt_le_dec y 0) as [Hy|Hy];
    try lra; repeat destruct (Qlt_le_dec _ _); lra.
Qed.

Lemma toFixed2_Z (z : Z) : toFixed2 (inject_Z z) == inject_Z z.
Proof.
  assert (forall w : Z,
    inject_Z (Math_round (inject_Z w * 100)) / 100 == inject_Z w) as Hw.
  { intros w. assert (Math_round (inject_Z w * 100) = (w * 100)%Z) as ->.
    { apply Z.le_antisymm.
      - apply Math_round_le. rewrite inject_Z_mult.
        change (inject_Z 100) with 100. lra.
      - apply Math_round_ge. rewrite inject_Z_mult.
        change (inject_Z 100) with 100. lra. }
    rewrite inject_Z_mult. change (inject_Z 100) with 100. field. }
  unfold toFixed2. destruct (Qlt_le_dec _ _); [|reflexivity].
  destruct (Qlt_le_dec _ _).
  - rewrite <- inject_Z_opp, Hw, inject_Z_opp. lra.
  - apply Hw.
Qed.

Lemma toFixed2_ge_1 x : 1 <= x -> 1 <= toFixed2 x.
Proof.
  intros H. apply toFixed2_mono in H.
  pose proof (toFixed2_Z 1) as H1. change (inject_Z 1) with 1 in H1. lra.
Qed.

(** ** Loops *)

(** [range lo n] holds exactly the counters for which the loop test
    [i < n] succeeds. *)
Lemma elem_of_range (lo i : nat) (n : Q) :
  i ∈ range lo n <-> (lo <= i)%nat /\ num i < n.
Proof.
  unfold range, num. rewrite elem_of_seq.
  pose proof (Qle_ceiling n) as Hup. pose proof (Qceiling_lt n) as Hdown.
  replace (Qceiling n - 1)%Z with (Qceiling n + -1)%Z in Hdown by lia.
  rewrite inject_Z_plus in Hdown. change (inject_Z (-1)) with (-1) in Hdown.
  split.
  - intros [Hlo Hhi]. split; [done|].
    assert (Z.of_nat i + 1 <= Qceiling n)%Z as H by lia.
    rewrite Zle_Qle, inject_Z_plus in H. change (inject_Z 1) with 1 in H. lra.
  - intros [Hlo Hhi]. split; [done|].
    assert (Z.of_nat i < Qceiling n)%Z as H by (rewrite Zlt_Qlt; lra). lia.
Qed.

(** [ToLength n] counts the indices [i] with [i + 1 <= n]. *)
Lemma ToLength_spec (i : nat) (n : Q) : (i < ToLength n)%nat <-> num i + 1 <= n.
Proof.
  unfold ToLength, num. pose proof (Qfloor_bounds n) as [Hlo Hhi]. split.
  - intros H. assert (Z.of_nat i + 1 <= Qfloor n)%Z as H' by lia.
    rewrite Zle_Qle, inject_Z_plus in H'. change (inject_Z 1) with 1 in H'. lra.
  - intros H. assert (Z.of_nat i + 1 <= Qfloor n)%Z as H'; [|lia].
    apply Qfloor_ge. rewrite inject_Z_plus. exact H.
Qed.

Lemma bind_run {S A B} (m : M S A) (k : A -> M S B) s a s' :
  m s = Ret a s' -> (let* x := m in k x) s = k a s'.
Proof. intros H. unfold bind. by rewrite H. Qed.

Section Loops.
Context {S I A : Type}.

(** An invariant of the loop variables, indexed by the counters already
    visited, holds when the loop ends, and the loop does end. *)
Lemma for_invariant (Inv : list I -> A -> Prop) (body : I -> A -> M S A) idx :
  (forall done i rest acc s, idx = done ++ i :: rest -> Inv done acc ->
     exists acc' s', body i acc s = Ret acc' s' /\ Inv (done ++ [i]) acc') ->
  forall acc s, Inv [] acc ->
  exists acc' s', for_ idx body acc s = Ret acc' s' /\ Inv idx acc'.
Proof.
  intros Hstep.
  assert (forall rest done acc s, idx = done ++ rest -> Inv done acc ->
    exists acc' s', for_ rest body acc s = Ret acc' s' /\ Inv idx acc') as Hgen.
  { induction rest as [|i rest IH]; intros done acc s Hidx Hinv.
    - rewrite app_nil_r in Hidx. subst done. by exists acc, s.
    - destruct (Hstep done i rest acc s Hidx Hinv) as (acc1 & s1 & Hb & Hinv1).
      destruct (IH (done ++ [i]) acc1 s1) as (acc2 & s2 & Hf & Hinv2); auto.
      { by rewrite <- app_assoc. }
      exists acc2, s2. split; [|done].
      simpl. unfold bind. by rewrite Hb. }
  intros acc s Hinv. by apply (Hgen idx [] acc s).
Qed.

End Loops.

Lemma mapM_spec {S A B} (f : A -> M S B) (P : A -> B -> Prop) l :
  (forall x s, x ∈ l -> exists y s', f x s = Ret y s' /\ P x y) ->
  forall s, exists ys s', mapM f l s = Ret ys s' /\ Forall2 P l ys.
Proof.
  induction l as [|x l IH]; intros Hf s.
  - exists [], s. by split; [|constructor].
  - destruct (Hf x s) as (y & s1 & Hy & HP); [by left|].
    destruct (IH (fun x' s' Hin => Hf x' s' (list_elem_of_further _ _ _ Hin)) s1)
      as (ys & s2 & Hys & HPs).
    exists (y :: ys), s2. split; [|by constructor].
    simpl. unfold bind. by rewrite Hy, Hys.
Qed.

(** An invariant of the loop variables and the state, indexed by the number
    of elements already visited. *)
Lemma for_each_state {St I A} (body : I -> A -> M St A) (idx : list I) :
  forall (Inv : nat -> A -> St -> Prop),
  (forall k i acc s, idx !! k = Some i -> Inv k acc s ->
     exists acc' s', body i acc s = Ret acc' s' /\ Inv (Datatypes.S k) acc' s') ->
  forall acc s, Inv 0%nat acc s ->
  exists acc' s', for_ idx body acc s = Ret acc' s' /\ Inv (length idx) acc' s'.
Proof.
  induction idx as [|i idx IH]; intros Inv Hstep acc s H0.
  - by exists acc, s.
  - destruct (Hstep 0%nat i acc s eq_refl H0) as (acc1 & s1 & Hb & H1).
    destruct (IH (fun k => Inv (Datatypes.S k))
                 (fun k j => Hstep (Datatypes.S k) j) acc1 s1 H1)
      as (acc2 & s2 & Hf & H2).
    exists acc2, s2. split; [|exact H2].
    simpl. unfold bind. by rewrite Hb.
Qed.

(** The same for a counted loop [for (i = lo; ...; i++)]. *)
Lemma for_counted {St A} (body : nat -> A -> M St A) (lo m : nat)
    (Inv : nat -> A -> St -> Prop) :
  (forall k acc s, (k < m)%nat -> Inv k acc s ->
     exists acc' s', body (lo + k)%nat acc s = Ret acc' s' /\
                     Inv (Datatypes.S k) acc' s') ->
  forall acc s, Inv 0%nat acc s ->
  exists acc' s', for_ (seq lo m) body acc s = Ret acc' s' /\ Inv m acc' s'.
Proof.
  intros Hstep acc s H0.
  destruct (for_each_state body (seq lo m) Inv) with (acc := acc) (s := s)
    as (acc' & s' & Hrun & Hinv); [|exact H0|].
  - intros k i acc0 s0 Hk. apply lookup_seq in Hk as [-> Hk]. by apply Hstep.
  - rewrite length_seq in Hinv. by exists acc', s'.
Qed.

(** ** Sorted arrays *)

Global Instance Qle_Transitive : Transitive Qle.
Proof. intros x y z. apply Qle_trans. Qed.
Global Instance Qle_Total : Total Qle.
Proof. intros x y. destruct (Qlt_le_dec x y); [left|right]; lra. Qed.

Lemma sort_ascending_sorted arr : StronglySorted Qle (sort_ascending arr).
Proof. apply StronglySorted_merge_sort; apply _. Qed.

Lemma sort_ascending_length arr : length (sort_ascending arr) = length arr.
Proof. apply Permutation_length, merge_sort_Permutation. Qed.

(** In a sorted array the element at the smaller index is the smaller. *)
Lemma sorted_lookup_le (arr : list Q) (i j : nat) x y :
  StronglySorted Qle arr -> (i <= j)%nat ->
  arr !! i = Some x -> arr !! j = Some y -> x <= y.
Proof.
  intros Hs. revert i j x y.
  induction Hs as [|a arr Hs IH Hall]; intros i j x y Hij Hi Hj.
  - by rewrite lookup_nil in Hi.
  - destruct i as [|i], j as [|j]; simpl in *; try lia.
    + assert (x = y) as -> by congruence. lra.
    + injection Hi as <-. rewrite Forall_forall in Hall.
      apply Hall. by eapply list_elem_of_lookup_2.
    + apply (IH i j); [lia|done..].
Qed.

Lemma at_index_lookup {A} (arr : list A) (i : Z) :
  (0 <= i < Z.of_nat (length arr))%Z ->
  exists v, at_index arr i = Some v /\ arr !! Z.to_nat i = Some v.
Proof.
  intros Hi. unfold at_index.
  destruct (Z.ltb_spec i 0); [lia|].
  destruct (lookup_lt_is_Some_2 arr (Z.to_nat i)) as [v Hv]; [lia|].
  by exists v.
Qed.

(** The floor-based quartile positions of an integral sample count. *)
Lemma quartile_positions (samples : Q) (n : Z) :
  (1 <= n)%Z -> samples == inject_Z n ->
  (0 <= Math_floor (samples * 0.25) <= Math_floor (samples * 0.5))%Z /\
  (Math_floor (samples * 0.5) <= Math_floor (samples * 0.75) <= n - 1)%Z.
Proof.
  intros Hn Hs. unfold Math_floor.
  assert (1 <= samples) as H1.
  { rewrite Hs. rewrite Zle_Qle in Hn. exact Hn. }
  repeat split.
  - apply Qfloor_ge. change (inject_Z 0) with 0. lra.
  - apply Qfloor_resp_le. lra.
  - apply Qfloor_resp_le. lra.
  - apply Z.lt_succ_r. replace (Z.succ (n - 1)) with n by lia.
    apply Qfloor_lt. lra.
Qed.

Section Properties.

Variable random : nat -> Q.
Variable now : Q.
Hypothesis random_range : forall n, 0 <= random n < 1.

(** *** candlestick *)

(** C9: whatever the configuration and the random values, one row is
    produced per counter below [points], every row closes at 1 or above,
    and from the second row on every row also opens at 1 or above. *)
Theorem candlestick_price_floor (cfg : config) (s : nat) :
  exists rows s', generateCandlestick random now cfg s = Ret rows s' /\
    length rows = length (range 0 (field cfg "points" 120)) /\
    forall (i : nat) c, rows !! i = Some c ->
      1 <= close c /\ ((1 <= i)%nat -> 1 <= open c).
Proof.
  unfold generateCandlestick.
  set (body := fun (i : nat) (pd : Q * list candle) => _).
  destruct (for_invariant
    (fun (done : list nat) (pd : Q * list candle) =>
       length pd.2 = length done /\
       (pd.2 <> [] -> 1 <= pd.1) /\
       forall (i : nat) c, pd.2 !! i = Some c ->
         1 <= close c /\ ((1 <= i)%nat -> 1 <= open c))
    body (range 0 (field cfg "points" 120)))
    with (acc := (field cfg "base" 100, @nil candle))
    (s := s) as ([price data] & s' & Hrun & Hlen & Hne & Hrows).
  - intros done i rest [price data] s0 _ (Hlen & Hprice & Hrows). simpl in *.
    eexists (_, _), _. split; [reflexivity|]. simpl.
    set (price' := Math_max 1 _).
    assert (1 <= price') as Hm by apply Math_max_spec.
    split; [rewrite !length_app; simpl; lia|]. split; [done|].
    intros k c Hk. apply lookup_app_Some in Hk as [Hk|[Hge Hk]]; [by apply Hrows|].
    apply list_lookup_singleton_Some in Hk as [Hidx <-]. simpl.
    split; [by apply toFixed2_ge_1|].
    intros Hk1. apply toFixed2_ge_1, Hprice.
    destruct data; simpl in *; [lia|done].
  - simpl. split; [done|]. split; [done|].
    intros i c Hi. by rewrite lookup_nil in Hi.
  - exists data, s'. split; [|done]. unfold bind. by rewrite Hrun.
Qed.

Lemma spread_nonneg r v : 0 <= r -> 0 <= v -> 0 <= r * (v * 1.5 - 0) + 0.
Proof.
  intros Hr Hv. assert (0 <= r * (v * 1.5 - 0)); [|lra].
  apply Qmult_le_0_compat; lra.
Qed.

(** C1, amended: with a volatility that is not negative and random
    values in [0, 1), one row is produced per counter below [points], and
    every row has its high at or above both open and close, and its low at
    or below both. *)
Theorem candlestick_high_low (cfg : config) (s : nat) :
  0 <= field cfg "volatility" 2 ->
  exists rows s', generateCandlestick random now cfg s = Ret rows s' /\
    length rows = length (range 0 (field cfg "points" 120)) /\
    forall c, c ∈ rows ->
      Math_max (open c) (close c) <= high c /\
      low c <= Math_min (open c) (close c).
Proof.
  intros Hvol. unfold generateCandlestick.
  set (body := fun (i : nat) (pd : Q * list candle) => _).
  destruct (for_invariant
    (fun (done : list nat) (pd : Q * list candle) =>
       length pd.2 = length done /\
       forall c, c ∈ pd.2 ->
         Math_max (open c) (close c) <= high c /\
         low c <= Math_min (open c) (close c))
    body (range 0 (field cfg "points" 120)))
    with (acc := (field cfg "base" 100, @nil candle))
    (s := s) as ([price data] & s' & Hrun & Hlen & Hrows).
  - intros done i rest [price data] s0 _ [Hlen Hrows]. simpl in *.
    eexists (_, _), _. split; [reflexivity|]. simpl.
    split; [rewrite !length_app; simpl; lia|].
    intros c Hc. apply elem_of_app in Hc as [Hc|Hc]; [by apply Hrows|].
    apply list_elem_of_singleton in Hc as ->. simpl.
    set (price' := Math_max 1 _).
    pose proof (spread_nonneg (random (Datatypes.S s0)) _
                  (proj1 (random_range _)) Hvol) as Hup.
    pose proof (spread_nonneg (random (Datatypes.S (Datatypes.S s0))) _
                  (proj1 (random_range _)) Hvol) as Hdown.
    pose proof (Math_max_spec price price') as (Ha & Hb & _).
    pose proof (Math_min_spec price price') as (Hc & Hd & _).
    split.
    + destruct (Math_max_spec (toFixed2 price) (toFixed2 price'))
        as (_ & _ & [-> | ->]); apply toFixed2_mono; lra.
    + destruct (Math_min_spec (toFixed2 price) (toFixed2 price'))
        as (_ & _ & [-> | ->]); apply toFixed2_mono; lra.
  - simpl. split; [done|]. intros c Hc. by apply elem_of_nil in Hc.
  - exists data, s'. split; [|done]. unfold bind. by rewrite Hrun.
Qed.

(** *** boxplot *)

Lemma rand_run (min max : Q) (s : nat) :
  rand random min max s = Ret (random s * (max - min) + min) (Datatypes.S s).
Proof. reflexivity. Qed.

(** The values [Array.from] collects from successive calls of
    [rand(min, max)], and the draws they use up. *)
Lemma mapM_rand {I} (min max : Q) (l : list I) (t : nat) :
  mapM (fun _ : I => rand random min max) l t
  = Ret ((fun j : nat => random (t + j)%nat * (max - min) + min) <$> seq 0 (length l))
        (t + length l)%nat.
Proof.
  revert t. induction l as [|x l IH]; intros t.
  - simpl. by rewrite Nat.add_0_r.
  - cbn [mapM length]. rewrite (bind_run _ _ _ _ _ (rand_run min max t)).
    rewrite (bind_run _ _ _ _ _ (IH (Datatypes.S t))).
    unfold ret. f_equal; [|lia].
    cbn [seq fmap list_fmap]. rewrite Nat.add_0_r. f_equal.
    rewrite <- fmap_S_seq, <- list_fmap_compose.
    apply list_fmap_ext. intros i j _. simpl. by rewrite Nat.add_succ_r.
Qed.

(** C2, amended: with an integral number [n >= 1] of samples, one group
    is produced per counter below [groups]; the sample of group [g] is
    the [n] values [rand(min, max)] makes of the draws the group consumes,
    and the group holds the two-decimal renderings of the first element,
    of the elements at the positions floor(samples * 0.25),
    floor(samples * 0.5), floor(samples * 0.75) and of the last element of
    this sample sorted ascending, in non-decreasing order. *)
Theorem boxplot_quartiles (cfg : config) (s : nat) (n : Z) :
  let samples := field cfg "samples" 30 in
  let min := field cfg "min" 0 in
  let max := field cfg "max" 100 in
  (1 <= n)%Z -> samples == inject_Z n ->
  exists out s', generateBoxplot random cfg s = Ret out s' /\
    length out = length (range 0 (field cfg "groups" 5)) /\
    forall (g : nat) b, out !! g = Some b ->
      let sample :=
        (fun j : nat => random (s + g * Z.to_nat n + j)%nat * (max - min) + min)
          <$> seq 0 (Z.to_nat n) in
      let arr := sort_ascending sample in
      exists lo q1 q2 q3 hi,
        b_name b = "G" +:+ str (Z.of_nat g + 1) /\
        at_index arr 0 = Some lo /\
        at_index arr (Math_floor (samples * 0.25)) = Some q1 /\
        at_index arr (Math_floor (samples * 0.5)) = Some q2 /\
        at_index arr (Math_floor (samples * 0.75)) = Some q3 /\
        at_index arr (Z.of_nat (length arr) - 1) = Some hi /\
        b_value b = [toFixed2 lo; toFixed2 q1; toFixed2 q2; toFixed2 q3;
                     toFixed2 hi] /\
        toFixed2 lo <= toFixed2 q1 /\ toFixed2 q1 <= toFixed2 q2 /\
        toFixed2 q2 <= toFixed2 q3 /\ toFixed2 q3 <= toFixed2 hi.
Proof.
  intros samples min max Hn Hs. unfold generateBoxplot. fold samples min max.
  assert (ToLength samples = Z.to_nat n) as Hsize.
  { unfold ToLength. by rewrite (Qfloor_comp _ _ Hs), Qfloor_Z. }
  set (body := fun (g : nat) (out : list box) => _).
  unfold range. rewrite length_seq.
  destruct (for_counted body 0
    (Z.to_nat (Qceiling (field cfg "groups" 5)) - 0)
    (fun k (out : list box) (t : nat) =>
       t = (s + k * Z.to_nat n)%nat /\ length out = k /\
       forall (g : nat) b, out !! g = Some b ->
         let sample :=
           (fun j : nat => random (s + g * Z.to_nat n + j)%nat * (max - min) + min)
             <$> seq 0 (Z.to_nat n) in
         let arr := sort_ascending sample in
         exists lo q1 q2 q3 hi,
           b_name b = "G" +:+ str (Z.of_nat g + 1) /\
           at_index arr 0 = Some lo /\
           at_index arr (Math_floor (samples * 0.25)) = Some q1 /\
           at_index arr (Math_floor (samples * 0.5)) = Some q2 /\
           at_index arr (Math_floor (samples * 0.75)) = Some q3 /\
           at_index arr (Z.of_nat (length arr) - 1) = Some hi /\
           b_value b = [toFixed2 lo; toFixed2 q1; toFixed2 q2; toFixed2 q3;
                        toFixed2 hi] /\
           toFixed2 lo <= toFixed2 q1 /\ toFixed2 q1 <= toFixed2 q2 /\
           toFixed2 q2 <= toFixed2 q3 /\ toFixed2 q3 <= toFixed2 hi))
    with (acc := @nil box) (s := s) as (out & s' & Hrun & _ & Hlen & Hout).
  - intros k out t _ (-> & Hlen & Hout). change (0 + k)%nat with k.
    set (sample := (fun j : nat =>
           random (s + k * Z.to_nat n + j)%nat * (max - min) + min)
             <$> seq 0 (Z.to_nat n)).
    assert (length sample = Z.to_nat n) as Hsample
      by (unfold sample; by rewrite length_fmap, length_seq).
    pose proof (sort_ascending_sorted sample) as Hsorted.
    pose proof (sort_ascending_length sample) as Hlength.
    destruct (quartile_positions samples n Hn Hs) as [[H0 H1] [H2 H3]].
    set (arr := sort_ascending sample) in *.
    destruct (at_index_lookup arr 0) as (lo & Elo & Llo); [lia|].
    destruct (at_index_lookup arr (Math_floor (samples * 0.25)))
      as (q1 & E1 & L1); [lia|].
    destruct (at_index_lookup arr (Math_floor (samples * 0.5)))
      as (q2 & E2 & L2); [lia|].
    destruct (at_index_lookup arr (Math_floor (samples * 0.75)))
      as (q3 & E3 & L3); [lia|].
    destruct (at_index_lookup arr (Z.of_nat (length arr) - 1))
      as (hi & Ehi & Lhi); [lia|].
    eexists _, _. split.
    { unfold body, Array_from. rewrite Hsize.
      rewrite (bind_run _ _ _ _ _ (mapM_rand min max _ _)).
      rewrite length_seq. fold sample. fold arr.
      rewrite Elo, E1, E2, E3, Ehi. reflexivity. }
    split; [lia|]. split; [rewrite length_app; simpl; lia|].
    intros g b Hg. apply lookup_app_Some in Hg as [Hg|[Hge Hg]];
      [by apply Hout|].
    apply list_lookup_singleton_Some in Hg as [Hidx <-].
    assert (g = k) as -> by lia.
    exists lo, q1, q2, q3, hi. fold sample. fold arr. cbn [b_name b_value].
    split; [done|]. split; [exact Elo|]. split; [exact E1|].
    split; [exact E2|]. split; [exact E3|]. split; [exact Ehi|].
    split; [done|].
    repeat split; apply toFixed2_mono.
    + eapply (sorted_lookup_le arr); [exact Hsorted| |exact Llo|exact L1]. lia.
    + eapply (sorted_lookup_le arr); [exact Hsorted| |exact L1|exact L2]. lia.
    + eapply (sorted_lookup_le arr); [exact Hsorted| |exact L2|exact L3]. lia.
    + eapply (sorted_lookup_le arr); [exact Hsorted| |exact L3|exact Lhi]. lia.
  - split; [lia|]. split; [done|]. intros g b Hg. by rewrite lookup_nil in Hg.
  - exists out, s'. split; [exact Hrun|]. split; [exact Hlen|exact Hout].
Qed.

(** *** tree *)

Lemma depth_positive (d : nat) depth :
  depth == num (Datatypes.S d) -> Qeq_bool depth 0 = false.
Proof.
  intros Hd. apply not_true_is_false. intros H%Qeq_bool_eq.
  rewrite H in Hd.
  assert (0%Z = Z.of_nat (Datatypes.S d)) by (apply inject_Z_injective, Hd).
  lia.
Qed.

Lemma depth_pred (d : nat) depth :
  depth == num (Datatypes.S d) -> depth - 1 == num d.
Proof.
  intros Hd. rewrite Hd. unfold num. rewrite Nat2Z.inj_succ. unfold Z.succ.
  rewrite inject_Z_plus. change (inject_Z 1) with 1. ring.
Qed.

(** The builder, asked for [d + 1] levels of [k >= 1] nodes each and given
    enough stack, returns [k] nodes with [d] levels below each. *)
Lemma buildTree_levels (d : nat) :
  forall stack depth breadth level prefix s,
    depth == num (Datatypes.S d) -> (Datatypes.S d < stack)%nat ->
    (1 <= ToLength breadth)%nat ->
    exists kids s',
      buildTree random stack depth breadth level prefix s = Ret kids s' /\
      length kids = ToLength breadth /\
      Forall (levels d (ToLength breadth)) kids.
Proof.
  induction d as [|d IH]; intros stack depth breadth level prefix s Hd Hst Hk.
  - destruct stack as [|[|stack]]; try lia. simpl.
    rewrite (depth_positive _ _ Hd).
    assert (Qeq_bool (depth - 1) 0 = true) as ->.
    { apply Qeq_bool_iff. by rewrite (depth_pred _ _ Hd). }
    destruct (mapM_spec
      (fun i : nat =>
         let* children := ret [] in
         let* value := match children with
                       | [] => let* v := randInt random 10 100 in ret (Some v)
                       | _ :: _ => ret None
                       end in
         ret (Node (prefix +:+ str level +:+ "-" +:+ str (Z.of_nat i))
                   (match children with [] => None | _ :: _ => Some children end)
                   value))
      (fun _ n => levels 0 (ToLength breadth) n)
      (seq 0 (ToLength breadth))) with (s := s) as (kids & s' & Hrun & Hall).
    { intros i t _. eexists _, _. split; [reflexivity|]. by split. }
    exists kids, s'. split; [exact Hrun|]. split.
    + apply Forall2_length in Hall. by rewrite length_seq in Hall.
    + by eapply Forall2_Forall_r; [exact Hall|apply Forall_true].
  - destruct stack as [|stack]; [lia|]. simpl.
    rewrite (depth_positive _ _ Hd).
    pose proof (depth_pred _ _ Hd) as Hd'.
    destruct (mapM_spec
      (fun i : nat =>
         let* children := buildTree random stack (depth - 1) breadth
                                    (level + 1) prefix in
         let* value := match children with
                       | [] => let* v := randInt random 10 100 in ret (Some v)
                       | _ :: _ => ret None
                       end in
         ret (Node (prefix +:+ str level +:+ "-" +:+ str (Z.of_nat i))
                   (match children with [] => None | _ :: _ => Some children end)
                   value))
      (fun _ n => levels (Datatypes.S d) (ToLength breadth) n)
      (seq 0 (ToLength breadth))) with (s := s) as (kids & s' & Hrun & Hall).
    { intros i t _.
      destruct (IH stack (depth - 1) breadth (level + 1)%Z prefix t Hd')
        as (sub & t' & Hsub & Hlen & Hlev); [lia|done|].
      unfold bind. rewrite Hsub.
      destruct sub as [|n0 sub]; [simpl in Hlen; lia|].
      eexists _, _. split; [reflexivity|]. split; [done|].
      by exists (n0 :: sub). }
    exists kids, s'. split; [exact Hrun|]. split.
    + apply Forall2_length in Hall. by rewrite length_seq in Hall.
    + by eapply Forall2_Forall_r; [exact Hall|apply Forall_true].
Qed.

(** C5, amended: with depth 3 and breadth 2 the root has exactly 2
    children, each of them has exactly 2 children, each of those has
    exactly 2 children again, and these great-grandchildren are the leaves:
    they carry a value and no children. *)
Theorem tree_depth_3_breadth_2 (stack s : nat) :
  (4 <= stack)%nat ->
  exists root s', generateTree random stack tree_3_2 s = Ret root s' /\
    t_name root = "root" /\ levels 3 2 root.
Proof.
  intros Hst. unfold generateTree.
  destruct (buildTree_levels 2 stack (field tree_3_2 "depth" 3)
              (field tree_3_2 "breadth" 3) 0 "T" s)
    as (kids & s' & Hrun & Hlen & Hlev); [by vm_compute|lia|vm_compute; lia|].
  unfold bind. rewrite Hrun. eexists _, _. split; [reflexivity|].
  split; [done|]. split; [done|]. by exists kids.
Qed.

(** *** funnel *)

Lemma decay_step current drop r :
  0 <= current -> 0 <= drop -> drop * 1.2 <= 1 -> 0.8 <= r -> r <= 1.2 ->
  0 <= current * (1 - drop * r) <= current.
Proof.
  intros Hc Hd Hd' Hlo Hhi.
  assert (0 <= drop * r) by (apply Qmult_le_0_compat; lra).
  assert (0 <= drop * (1.2 - r)) by (apply Qmult_le_0_compat; lra).
  assert (0 <= current * (1 - drop * r)) by (apply Qmult_le_0_compat; lra).
  assert (0 <= current * (drop * r)) by (apply Qmult_le_0_compat; lra).
  lra.
Qed.

(** A drop ratio between 0 and 5/6 never lets a stage exceed the one
    before it. *)
Lemma funnel_decay (cfg : config) (s : nat) :
  let stages := field cfg "stages" 5 in
  let startValue := field cfg "startValue" 1000 in
  let drop := field cfg "drop" 0.25 in
  0 <= startValue -> 0 <= drop -> drop * 1.2 <= 1 ->
  exists data s', generateFunnel random cfg s = Ret data s' /\
    length data = length (range 0 stages) /\
    (forall first, data !! 0%nat = Some first ->
       s_value first = Math_round startValue) /\
    forall (i : nat) a b, data !! i = Some a -> data !! Datatypes.S i = Some b ->
      (s_value b <= s_value a)%Z.
Proof.
  intros stages startValue drop Hstart Hdrop Hdrop'. unfold generateFunnel.
  fold stages startValue drop.
  set (body := fun (i : nat) (cd : Q * list stage) => _).
  destruct (for_invariant
    (fun (done : list nat) (cd : Q * list stage) =>
       length cd.2 = length done /\ 0 <= cd.1 /\
       (cd.2 = [] -> cd.1 = startValue) /\
       (forall d, last cd.2 = Some d -> (Math_round cd.1 <= s_value d)%Z) /\
       (forall first, cd.2 !! 0%nat = Some first ->
          s_value first = Math_round startValue) /\
       forall (i : nat) a b, cd.2 !! i = Some a -> cd.2 !! Datatypes.S i = Some b ->
         (s_value b <= s_value a)%Z)
    body (range 0 stages)) with (acc := (startValue, @nil stage)) (s := s)
    as ([current data] & s' & Hrun & Hlen & _ & _ & _ & Hfirst & Hadj).
  - intros done i rest [current data] s0 _
      (Hlen & Hpos & Hinit & Hlast & Hfirst & Hadj). simpl in *.
    eexists (_, _), _. split; [reflexivity|]. simpl.
    destruct (random_range s0) as [Hr0 Hr1].
    destruct (decay_step current drop (random s0 * (1.2 - 0.8) + 0.8))
      as [Hnew0 Hnew1]; try lra.
    split; [rewrite length_app, length_app; simpl; lia|].
    split; [done|]. split; [by intros ?%app_nil_r_inv|]. split; [|split].
    + intros d Hd. rewrite last_snoc in Hd. injection Hd as <-. simpl.
      by apply Math_round_mono.
    + intros first Hf. destruct data as [|d0 data]; simpl in *.
      * injection Hf as <-. simpl. by rewrite Hinit.
      * by apply Hfirst.
    + intros k a b Ha Hb.
      apply lookup_app_Some in Hb as [Hb|[Hge Hb]].
      * rewrite lookup_app_l in Ha by (apply lookup_lt_Some in Hb; lia).
        by apply (Hadj k).
      * apply list_lookup_singleton_Some in Hb as [Hk <-]. simpl.
        rewrite lookup_app_l in Ha by lia.
        apply Hlast. rewrite last_lookup.
        replace (Nat.pred (length data)) with k by lia. done.
  - simpl. repeat split; done.
  - exists data, s'. split; [|done]. unfold bind. by rewrite Hrun.
Qed.

(** C6: with random values in [0, 1), the documented configuration gives
    exactly 5 stages, the first one worth 1000, and no stage worth more
    than the stage before it. *)
Theorem funnel_five_stages (s : nat) :
  exists data s', generateFunnel random funnel_5 s = Ret data s' /\
    length data = 5%nat /\
    (exists first, data !! 0%nat = Some first /\ s_value first = 1000%Z) /\
    forall (i : nat) a b, data !! i = Some a -> data !! Datatypes.S i = Some b ->
      (s_value b <= s_value a)%Z.
Proof.
  destruct (funnel_decay funnel_5 s) as (data & s' & Hrun & Hlen & Hfirst & Hadj);
    try (by vm_compute).
  exists data, s'. split; [done|]. split; [exact Hlen|]. split; [|done].
  destruct data as [|first data]; [by vm_compute in Hlen|].
  exists first. split; [done|]. by rewrite (Hfirst first).
Qed.

(** *** graph *)

(** [randInt(0, i - 1)] picks an index below [i]. *)
Lemma spanning_source r (i : nat) :
  0 <= r < 1 -> (1 <= i)%nat ->
  (0 <= Math_floor (r * (num i - 1 + 1 - 0) + 0) < Z.of_nat i)%Z.
Proof.
  intros [Hr0 Hr1] Hi. unfold Math_floor, num.
  assert (1 <= inject_Z (Z.of_nat i)) as Hq.
  { change 1 with (inject_Z 1). rewrite <- Zle_Qle. lia. }
  split; [apply Qfloor_ge; change (inject_Z 0) with 0|apply Qfloor_lt];
    generalize dependent (inject_Z (Z.of_nat i)); intros q Hq.
  - assert (0 <= r * q) by (apply Qmult_le_0_compat; lra). lra.
  - assert (0 < (1 - r) * q) by (apply Qmult_lt_0_compat; lra). lra.
Qed.

Lemma edge_app links more a b : edge links a b -> edge (links ++ more) a b.
Proof.
  intros (l & Hl & Ha & Hb). exists l. split; [|done].
  apply elem_of_app. by left.
Qed.

Lemma Forall2_fmap_eq {A B C} (f : B -> C) (g : A -> C) l k :
  Forall2 (fun a b => f b = g a) l k -> f <$> k = g <$> l.
Proof.
  induction 1 as [|a b l k H _ IH]; [done|].
  rewrite !fmap_cons. by rewrite H, IH.
Qed.

(** C7: with random values in [0, 1), for every configuration the node
    ids are N0, N1, ... in order; every node Ni with i >= 1 is the target
    of a link whose source has a smaller index; hence every node is
    reachable from N0 (which exists as soon as nodes >= 1). *)
Theorem graph_connected (cfg : config) (s : nat) :
  let nodes := field cfg "nodes" 30 in
  exists g s', generateGraph random cfg s = Ret g s' /\
    n_id <$> g_nodes g = node_id <$> seq 0 (ToLength nodes) /\
    (1 <= nodes -> n_id <$> g_nodes g !! 0%nat = Some "N0") /\
    (forall i, (1 <= i < ToLength nodes)%nat ->
       exists j, (j < i)%nat /\ edge (g_links g) (node_id j) (node_id i)) /\
    forall n, n ∈ g_nodes g -> reachable (g_links g) "N0" (n_id n).
Proof.
  intros nodes. unfold generateGraph. fold nodes.
  (* the node array *)
  destruct (mapM_spec
    (fun i : nat =>
       let* v := randInt random 1 10 in
       ret (GNode ("N" +:+ str (Z.of_nat i)) ("Node " +:+ str (Z.of_nat i)) v))
    (fun i n => n_id n = node_id i) (seq 0 (ToLength nodes))) with (s := s)
    as (nodeArr & s1 & Hnodes & Hids).
  { intros i t _. by eexists _, _. }
  apply Forall2_fmap_eq in Hids.
  (* the spanning links *)
  set (span := fun (i : nat) (links : list link) => _).
  destruct (for_invariant
    (fun (done : list nat) (links : list link) =>
       forall i, i ∈ done ->
         exists j, (j < i)%nat /\ edge links (node_id j) (node_id i))
    span (range 1 nodes)) with (acc := @nil link) (s := s1)
    as (links1 & s2 & Hspan & Hcover).
  { intros done i rest links t Hidx Hinv.
    assert (1 <= i)%nat as Hi.
    { assert (i ∈ range 1 nodes) as Hin
        by (rewrite Hidx; apply elem_of_app; right; left).
      apply elem_of_seq in Hin. lia. }
    destruct (spanning_source (random t) i (random_range t) Hi) as [Ha0 Ha1].
    eexists _, _. split; [reflexivity|].
    intros k Hk. apply elem_of_app in Hk as [Hk|Hk].
    - destruct (Hinv k Hk) as (j & Hj & He). exists j. split; [done|].
      by apply edge_app.
    - apply list_elem_of_singleton in Hk as ->.
      exists (Z.to_nat (Math_floor (random t * (num i - 1 + 1 - 0) + 0))).
      split; [lia|]. eexists. split; [apply elem_of_app; right; left|].
      simpl. split; [|done]. unfold node_id. by rewrite Z2Nat.id. }
  { intros i Hi. by apply elem_of_nil in Hi. }
  (* the extra links *)
  set (extra := fun (k : nat) (links : list link) => _).
  destruct (for_invariant
    (fun (done : list nat) (links : list link) =>
       forall l, l ∈ links1 -> l ∈ links)
    extra (range 0 (field cfg "extraLinks" 20))) with (acc := links1) (s := s2)
    as (links2 & s3 & Hextra & Hkeep).
  { intros done k rest links t _ Hinv. unfold extra, bind. simpl.
    destruct (_ =? _)%Z.
    - by eexists _, _.
    - eexists _, _. split; [reflexivity|]. intros l Hl.
      apply elem_of_app. left. by apply Hinv. }
  { done. }
  exists (Graph nodeArr links2), s3. split.
  { unfold Array_from.
    by rewrite (bind_run _ _ _ _ _ Hnodes), (bind_run _ _ _ _ _ Hspan),
               (bind_run _ _ _ _ _ Hextra). }
  simpl.
  assert (forall i, (1 <= i < ToLength nodes)%nat ->
    exists j, (j < i)%nat /\ edge links2 (node_id j) (node_id i)) as Hedges.
  { intros i Hi. destruct (Hcover i) as (j & Hj & l & Hl & Hs & Ht).
    - apply elem_of_seq. unfold ToLength in Hi.
      pose proof (Qle_floor_ceiling nodes) as H. rewrite <- Zle_Qle in H. lia.
    - exists j. split; [done|]. exists l. auto. }
  assert (forall i, (i < ToLength nodes)%nat ->
    reachable links2 "N0" (node_id i)) as Hreach.
  { intros i. induction (lt_wf i) as [i _ IH]. intros Hi.
    destruct i as [|i]; [apply rtc_refl|].
    destruct (Hedges (Datatypes.S i)) as (j & Hj & He); [lia|].
    eapply rtc_r; [apply (IH j); lia|done]. }
  split; [done|]. split; [|split; [done|]].
  - intros H1. rewrite <- list_lookup_fmap, Hids.
    assert (1 <= ToLength nodes)%nat as Hk.
    { unfold ToLength. assert (1 <= Qfloor nodes)%Z; [|lia].
      apply Qfloor_ge. by change (inject_Z 1) with 1. }
    destruct (ToLength nodes); [lia|done].
  - intros n Hn. apply (list_elem_of_fmap_2 n_id) in Hn. rewrite Hids in Hn.
    apply list_elem_of_fmap in Hn as (i & -> & Hi).
    apply elem_of_seq in Hi. apply Hreach. lia.
Qed.

End Properties.

(** ** Dispatch *)


Section Dispatch.

Variable random : nat -> Q.
Variable now : Q.
Variable stack : nat.
Variable other : Type.
Variable others : string -> config -> M nat other.

(** The own properties of the table are its eighteen keys. *)
Lemma own_property_registered (table : list (string * generator)) key :
  is_Some (own_property table key) <-> key ∈ table.*1.
Proof.
  induction table as [|[k g] table IH]; simpl.
  - split; [by intros []|by intros ?%elem_of_nil].
  - rewrite elem_of_cons. destruct (String.eqb_spec k key) as [->|Hne].
    + split; [by left|by eexists].
    + rewrite IH. split; [by right|]. by intros [?|?].
Qed.

(** A registered name runs its generator and nothing else. *)
Lemma buildMock_registered type gen config :
  own_property GENERATORS type = Some gen ->
  buildMock random now stack other others type config
  = call random now stack other others gen (default ∅ config).
Proof. intros H. unfold buildMock, GENERATORS_get. by rewrite H. Qed.

(** A name that is neither registered nor inherited is refused, and the
    message ends with the name. *)
Lemma buildMock_unknown type config s :
  own_property GENERATORS type = None -> type ∉ Object_prototype ->
  buildMock random now stack other others type config s
  = Throw (Error ("Unknown mock type: " +:+ type)).
Proof.
  intros H Hp. unfold buildMock, GENERATORS_get. rewrite H.
  by rewrite bool_decide_eq_false_2.
Qed.

(** C8: the name [toString] is not registered, yet the lookup finds the
    method every object inherits and the call returns instead of raising
    the unknown-type error. *)
Theorem buildMock_toString (config : option config) (s : nat) :
  own_property GENERATORS "toString" = None /\
  buildMock random now stack other others "toString" config s
  = Ret (Str other "[object Undefined]") s.
Proof. split; reflexivity. Qed.


End Dispatch.

(** ** Drawing hooks *)

(** C4: value 50 of the range 0..100 on a 200 pixel wide plotting area
    gives a foreground bar 100 pixels wide, the area width times
    (value - min) / (max - min); it is the second of the three primitives
    the hook draws. *)
Theorem gauge_half_bar (Number_toString : Q -> string) (u : uPlot) (c : Canvas) :
  width (bbox u) == 200 ->
  exists c' background text x y w h,
    gaugePlugin_draw Number_toString (Gauge 50 0 100) u c = Ret tt c' /\
    drawn c' = drawn c ++ [background; FillRect (palette_at 0) x y w h; text] /\
    w == width (bbox u) * ((50 - 0) / (100 - 0)) /\ w == 100.
Proof.
  intros Hw.
  cbv beta iota zeta delta
    [gaugePlugin_draw bind set_fillStyle set_font set_textAlign set_textBaseline
     fillRect fillText fillStyle font textAlign textBaseline drawn
     g_min g_max g_value].
  eexists _, _, _, _, _, _, _. split; [reflexivity|].
  cbv beta iota delta [drawn]. rewrite <- !app_assoc.
  split; [reflexivity|]. split; [reflexivity|].
  rewrite Hw. reflexivity.
Qed.

(** The pixel geometry of one group of two bars: with a bar width of at
    least 1.5 the rounded width is not negative, each bar starts at most
    half a pixel left of the group and ends inside it, and the first bar
    ends where the second begins or before. *)
Lemma bar_group_geometry (leftStart barWidth : Q) :
  1.5 <= barWidth ->
  let w := inject_Z (Math_round (barWidth - 2)) in
  let x0 := inject_Z (Math_round (leftStart + num 0 * barWidth)) in
  let x1 := inject_Z (Math_round (leftStart + num 1 * barWidth)) in
  0 <= w /\ leftStart - 0.5 <= x0 /\ leftStart - 0.5 <= x1 /\
  x0 + w <= x1 /\ x1 + w <= leftStart + 2 * barWidth.
Proof.
  intros Hbw. cbv zeta. change (num 0) with 0. change (num 1) with 1.
  assert (0 <= inject_Z (Math_round (barWidth - 2))) as Hw.
  { unfold Math_round. change 0 with (inject_Z 0) at 1. rewrite <- Zle_Qle.
    apply Qfloor_ge. change (inject_Z 0) with 0. lra. }
  pose proof (Math_round_lower (barWidth - 2)).
  pose proof (Math_round_upper (barWidth - 2)).
  pose proof (Math_round_lower (leftStart + 0 * barWidth)).
  pose proof (Math_round_upper (leftStart + 0 * barWidth)).
  pose proof (Math_round_lower (leftStart + 1 * barWidth)).
  pose proof (Math_round_upper (leftStart + 1 * barWidth)).
  generalize dependent (inject_Z (Math_round (barWidth - 2))).
  generalize dependent (inject_Z (Math_round (leftStart + 0 * barWidth))).
  generalize dependent (inject_Z (Math_round (leftStart + 1 * barWidth))).
  intros x1 x0 w Hw. intros. repeat split; lra.
Qed.

Lemma no_overlap_left_to_right style1 style2 x0 x1 y0 y1 w h0 h1 :
  0 <= w -> x0 + w <= x1 ->
  ~ x_overlap (FillRect style1 x0 y0 w h0) (FillRect style2 x1 y1 w h1) /\
  ~ x_overlap (FillRect style2 x1 y1 w h1) (FillRect style1 x0 y0 w h0).
Proof.
  intros Hw Hx.
  pose proof (Math_max_spec x0 (x0 + w)) as (_ & _ & Hmax).
  pose proof (Math_min_spec x1 (x1 + w)) as (_ & _ & Hmin).
  split; intros (lo1 & hi1 & lo2 & hi2 & E1 & E2 & H1 & H2);
    simpl in E1, E2; injection E1 as <- <-; injection E2 as <- <-;
    destruct Hmax as [Hmax|Hmax], Hmin as [Hmin|Hmin];
    rewrite Hmax, Hmin in *; lra.
Qed.

(** C3, amended: for bar data with 3 categories and 2 series, every value
    present, and on every surface, the hook fills exactly 6 rectangles, 2
    per category.  The group of a category spans 80% of the pixel distance
    between two categories and is centred on the category; the rectangle
    of series [k] has the palette colour of the series, starts at the
    rounding of (group left + k * bar width) and is as wide as the rounding
    of (bar width - 2), the bar width being half the group width.  Only
    what follows depends on the surface: when the categories are at least
    3.75 pixels apart, the rounded width is not negative, each rectangle
    starts at most half a pixel left of its group and ends inside it, and
    the two rectangles of a group do not overlap in x. *)
Theorem bar_two_series_three_categories
    (raw : BarData) (a1 a2 a3 b1 b2 b3 : Q)
    (toPixel : Q -> scale -> Q) (box : BBox) (c : Canvas) :
  let gap := toPixel 1 x_scale - toPixel 0 x_scale in
  let groupWidth := gap * 0.8 in
  let barWidth := groupWidth / 2 in
  length (categories raw) = 3%nat ->
  bs_data <$> series raw =
    [[Some a1; Some a2; Some a3]; [Some b1; Some b2; Some b3]] ->
  exists c' groups,
    barPlugin_draw (plot (buildUplotConfig_bar raw) toPixel box) c = Ret tt c' /\
    drawn c' = drawn c ++ concat groups /\
    length groups = 3%nat /\ length (concat groups) = 6%nat /\
    forall (i : nat) group, groups !! i = Some group ->
      let leftStart := toPixel (num i) x_scale - groupWidth / 2 in
      length group = 2%nat /\
      (forall (k : nat) r, group !! k = Some r ->
         exists x y w h,
           r = FillRect (palette_at k) x y w h /\
           x = inject_Z (Math_round (leftStart + num k * barWidth)) /\
           w = inject_Z (Math_round (barWidth - 2)) /\
           (3.75 <= gap ->
            0 <= w /\ leftStart - 0.5 <= x /\ x + w <= leftStart + groupWidth)) /\
      (3.75 <= gap ->
       forall (k1 k2 : nat) r1 r2, k1 <> k2 ->
         group !! k1 = Some r1 -> group !! k2 = Some r2 -> ~ x_overlap r1 r2).
Proof.
  intros gap groupWidth barWidth Hlen Hdata.
  destruct raw as [cats sers]. simpl in Hlen, Hdata.
  destruct cats as [|c1 [|c2 [|c3 [|]]]]; try discriminate.
  destruct sers as [|[n1 d1] [|[n2 d2] [|]]]; try discriminate.
  injection Hdata as -> ->.
  cbv -[Qmult Qplus Qminus Qdiv Qopp Qinv inject_Z Math_round Math_min Math_abs
        num app Qle Qlt length concat lookup x_overlap gap groupWidth barWidth
        palette_at].
  change (inject_Z 2) with 2. fold gap. fold groupWidth. fold barWidth.
  assert (3.75 <= gap -> 1.5 <= barWidth) as Hbw.
  { intros Hgap. unfold barWidth, groupWidth, Qdiv. change (/ 2) with (1 # 2). lra. }
  assert (2 * barWidth == groupWidth) as Hgw.
  { unfold barWidth, Qdiv. change (/ 2) with (1 # 2). ring. }
  eexists _, [[_; _]; [_; _]; [_; _]].
  split; [reflexivity|]. split; [simpl; by rewrite <- !app_assoc|].
  split; [done|]. split; [done|].
  intros i group Hi.
  set (leftStart := toPixel (num i) x_scale - groupWidth / 2).
  change (toPixel (num i) x_scale - barWidth) with leftStart.
  assert (group =
    [FillRect (palette_at 0)
       (inject_Z (Math_round (leftStart + num 0 * barWidth)))
       (inject_Z (Math_round (Math_min
          (toPixel (default 0 ([a1; a2; a3] !! i)) y_scale) (toPixel 0 y_scale))))
       (inject_Z (Math_round (barWidth - 2)))
       (inject_Z (Math_round (Math_abs
          (toPixel 0 y_scale - toPixel (default 0 ([a1; a2; a3] !! i)) y_scale))));
     FillRect (palette_at 1)
       (inject_Z (Math_round (leftStart + num 1 * barWidth)))
       (inject_Z (Math_round (Math_min
          (toPixel (default 0 ([b1; b2; b3] !! i)) y_scale) (toPixel 0 y_scale))))
       (inject_Z (Math_round (barWidth - 2)))
       (inject_Z (Math_round (Math_abs
          (toPixel 0 y_scale - toPixel (default 0 ([b1; b2; b3] !! i)) y_scale))))])
    as ->.
  { destruct i as [|[|[|i]]]; simpl in Hi; by inversion Hi. }
  split; [done|]. split.
  - intros k r Hk.
    destruct k as [|[|k]]; simpl in Hk; [| |done];
      injection Hk as <-; eexists _, _, _, _; (split; [reflexivity|]);
      (split; [reflexivity|]); (split; [reflexivity|]); intros Hgap;
      destruct (bar_group_geometry leftStart barWidth (Hbw Hgap))
        as (Hw & H0 & H1 & Hx & Hr); repeat split; try done; lra.
  - intros Hgap k1 k2 r1 r2 Hne Hk1 Hk2.
    destruct (bar_group_geometry leftStart barWidth (Hbw Hgap))
      as (Hw & H0 & H1 & Hx & Hr).
    destruct (no_overlap_left_to_right (palette_at 0) (palette_at 1)
      _ _ (inject_Z (Math_round (Math_min
          (toPixel (default 0 ([a1; a2; a3] !! i)) y_scale) (toPixel 0 y_scale))))
      (inject_Z (Math_round (Math_min
          (toPixel (default 0 ([b1; b2; b3] !! i)) y_scale) (toPixel 0 y_scale))))
      _ (inject_Z (Math_round (Math_abs
          (toPixel 0 y_scale - toPixel (default 0 ([a1; a2; a3] !! i)) y_scale))))
      (inject_Z (Math_round (Math_abs
          (toPixel 0 y_scale - toPixel (default 0 ([b1; b2; b3] !! i)) y_scale))))
      Hw Hx) as [Hno1 Hno2].
    destruct k1 as [|[|k1]]; simpl in Hk1; [| |done];
      (destruct k2 as [|[|k2]]; simpl in Hk2; [| |done]);
      injection Hk1 as <-; injection Hk2 as <-; done.
Qed.

(** ** Concrete runs *)

Lemma half_range : forall n, 0 <= half n < 1.
Proof. intros n. unfold half. lra. Qed.

Lemma walk_range : forall n, 0 <= walk n < 1.
Proof.
  intros n. unfold walk, Qle, Qlt. simpl.
  pose proof (Nat.mod_upper_bound (n * 37) 100). lia.
Qed.

(** C1 as stated fails: with volatility -2 the spread added to the high
    is negative, and the only row has its high below its open. *)
Lemma candlestick_negative_volatility :
  (forall n, 0 <= half n < 1) /\
  exists rows s' c,
    generateCandlestick half 0 falling_candles 0%nat = Ret rows s' /\
    c ∈ rows /\ high c < Math_max (open c) (close c).
Proof.
  split; [exact half_range|].
  eexists _, _, _. split; [vm_compute; reflexivity|].
  split; [by left|]. vm_compute. reflexivity.
Qed.

(** The default configuration with every random value 0.5. *)
Lemma candlestick_high_low_witness :
  (forall n, 0 <= half n < 1) /\ 0 <= field ∅ "volatility" 2 /\
  exists rows s', generateCandlestick half 0 ∅ 0%nat = Ret rows s' /\
    length rows = length (range 0 (field ∅ "points" 120)) /\
    forall c, c ∈ rows ->
      Math_max (open c) (close c) <= high c /\
      low c <= Math_min (open c) (close c).
Proof.
  split; [exact half_range|]. split; [by vm_compute|].
  apply (candlestick_high_low half 0 half_range ∅ 0%nat). by vm_compute.
Defined.

(** C2 as stated fails: 1.5 samples make an array of one element, and
    the third quartile is read at index 1. *)
Lemma boxplot_fractional_samples :
  1 <= field fractional_samples "groups" 5 /\
  1 <= field fractional_samples "samples" 30 /\
  generateBoxplot walk fractional_samples 0%nat = Throw TypeError.
Proof. repeat split; by vm_compute. Qed.

(** The default configuration, 30 samples in each of 5 groups. *)
Lemma boxplot_quartiles_witness :
  (1 <= 30)%Z /\ field ∅ "samples" 30 == inject_Z 30 /\
  exists out s', generateBoxplot walk ∅ 0%nat = Ret out s' /\
    length out = 5%nat /\
    forall b, b ∈ out -> exists v0 v1 v2 v3 v4,
      b_value b = [v0; v1; v2; v3; v4] /\
      v0 <= v1 /\ v1 <= v2 /\ v2 <= v3 /\ v3 <= v4.
Proof.
  split; [lia|]. split; [by vm_compute|].
  destruct (boxplot_quartiles walk ∅ 0%nat 30) as (out & s' & Hrun & Hlen & Hall);
    [lia|by vm_compute|].
  exists out, s'. split; [exact Hrun|]. split; [exact Hlen|].
  intros b [g Hg]%list_elem_of_lookup_1.
  destruct (Hall g b Hg) as (lo & q1 & q2 & q3 & hi & _ & _ & _ & _ & _ & _
                              & Hv & H1 & H2 & H3 & H4).
  exists (toFixed2 lo), (toFixed2 q1), (toFixed2 q2), (toFixed2 q3), (toFixed2 hi).
  split; [exact Hv|]. split; [exact H1|]. split; [exact H2|].
  split; [exact H3|exact H4].
Defined.

(** C5 as stated fails: the grandchildren of the root are not leaves,
    each of them has children of its own. *)
Lemma tree_grandchildren_have_children :
  exists root s', generateTree walk 10 tree_3_2 0%nat = Ret root s' /\
    ~ levels 2 2 root.
Proof.
  eexists _, _. split; [vm_compute; reflexivity|].
  intros (_ & kids & Hkids & _ & Hall). simpl in Hkids. injection Hkids as <-.
  inversion Hall as [|child rest (_ & grand & Hgrand & _ & Hall') _].
  simpl in Hgrand. injection Hgrand as <-.
  inversion Hall' as [|g rest' [Hleaf _] _]. discriminate Hleaf.
Qed.

(** Ten stack frames are more than the four the call needs. *)
Lemma tree_depth_3_breadth_2_witness :
  (4 <= 10)%nat /\
  exists root s', generateTree walk 10 tree_3_2 0%nat = Ret root s' /\
    t_name root = "root" /\ levels 3 2 root.
Proof. split; [lia|]. apply (tree_depth_3_breadth_2 walk 10 0%nat). lia. Defined.

(** The documented configuration on a varying sequence of random values. *)
Lemma funnel_five_stages_witness :
  (forall n, 0 <= walk n < 1) /\
  exists data s', generateFunnel walk funnel_5 0%nat = Ret data s' /\
    length data = 5%nat /\
    (exists first, data !! 0%nat = Some first /\ s_value first = 1000%Z) /\
    forall (i : nat) a b, data !! i = Some a -> data !! Datatypes.S i = Some b ->
      (s_value b <= s_value a)%Z.
Proof. split; [exact walk_range|]. apply (funnel_five_stages walk walk_range 0%nat). Defined.

(** The default graph of 30 nodes on the same sequence. *)
Lemma graph_connected_witness :
  (forall n, 0 <= walk n < 1) /\
  exists g s', generateGraph walk ∅ 0%nat = Ret g s' /\
    forall n, n ∈ g_nodes g -> reachable (g_links g) "N0" (n_id n).
Proof.
  split; [exact walk_range|].
  destruct (graph_connected walk walk_range ∅ 0%nat)
    as (g & s' & Hrun & _ & _ & _ & Hreach).
  exists g, s'. split; [exact Hrun|exact Hreach].
Defined.



(** A plotting area 200 pixels wide. *)
Lemma gauge_half_bar_witness :
  width (bbox (plot (MkOpts [] []) wide (MkBBox 10 20 200 400))) == 200 /\
  exists c' background text x y w h,
    gaugePlugin_draw no_rendering (Gauge 50 0 100)
      (plot (MkOpts [] []) wide (MkBBox 10 20 200 400)) blank = Ret tt c' /\
    drawn c' = drawn blank ++ [background; FillRect (palette_at 0) x y w h; text] /\
    w == 100.
Proof.
  split; [reflexivity|].
  destruct (gauge_half_bar no_rendering
              (plot (MkOpts [] []) wide (MkBBox 10 20 200 400)) blank)
    as (c' & bg & text & x & y & w & h & Hrun & Hdrawn & _ & Hw); [reflexivity|].
  by exists c', bg, text, x, y, w, h.
Defined.

(** C3 as stated fails: on a surface whose categories are 1.25 pixels
    apart the rounded bar width is -1, and the two rectangles of the first
    category cover the same pixels. *)
Lemma bar_narrow_overlap :
  exists c' r1 r2 rest,
    barPlugin_draw (plot (buildUplotConfig_bar (bars_3_2 10 20 30 5 15 25))
                         narrow area) blank = Ret tt c' /\
    drawn c' = r1 :: r2 :: rest /\ length (drawn c') = 6%nat /\
    x_overlap r1 r2.
Proof.
  eexists _, _, _, _. split; [vm_compute; reflexivity|].
  split; [reflexivity|]. split; [reflexivity|].
  eexists _, _, _, _. split; [reflexivity|]. split; [reflexivity|].
  by vm_compute.
Qed.

(** Categories 100 pixels apart. *)
Lemma bar_two_series_three_categories_witness :
  length (categories (bars_3_2 10 20 30 5 15 25)) = 3%nat /\
  3.75 <= wide 1 x_scale - wide 0 x_scale /\
  exists c' groups,
    barPlugin_draw (plot (buildUplotConfig_bar (bars_3_2 10 20 30 5 15 25))
                         wide area) blank = Ret tt c' /\
    drawn c' = drawn blank ++ concat groups /\
    length (concat groups) = 6%nat /\
    forall (i : nat) group, groups !! i = Some group ->
      forall (k1 k2 : nat) r1 r2, k1 <> k2 ->
        group !! k1 = Some r1 -> group !! k2 = Some r2 -> ~ x_overlap r1 r2.
Proof.
  split; [reflexivity|].
  assert (3.75 <= wide 1 x_scale - wide 0 x_scale) as Hgap by (by vm_compute).
  split; [exact Hgap|].
  destruct (bar_two_series_three_categories (bars_3_2 10 20 30 5 15 25)
              10 20 30 5 15 25 wide area blank)
    as (c' & groups & Hrun & Hdrawn & _ & Hsix & Hgroups);
    [reflexivity|reflexivity|].
  exists c', groups. split; [exact Hrun|]. split; [exact Hdrawn|].
  split; [exact Hsix|]. intros i group Hi.
  destruct (Hgroups i group Hi) as (_ & _ & Hno). exact (Hno Hgap).
Defined.

(** * Further properties *)

(** ** The other generators *)

Lemma mapM_ret {St A B} (f : A -> B) (l : list A) (s : St) :
  mapM (fun x => ret (f x)) l s = Ret (f <$> l) s.
Proof.
  induction l as [|x l IH]; [done|].
  simpl. unfold bind, ret in *. by rewrite IH.
Qed.

(** What [Array.from] and [map] return, element by element. *)
Lemma mapM_lookup {St A B} (f : A -> M St B) (P : A -> B -> Prop) l :
  (forall x s, x ∈ l -> exists y s', f x s = Ret y s' /\ P x y) ->
  forall s, exists ys s', mapM f l s = Ret ys s' /\ length ys = length l /\
    forall (i : nat) y, ys !! i = Some y -> exists x, l !! i = Some x /\ P x y.
Proof.
  intros Hf s. destruct (mapM_spec f P l Hf s) as (ys & s' & Hrun & Hall).
  exists ys, s'. split; [exact Hrun|]. split.
  - symmetry. by eapply Forall2_length.
  - intros i y Hy. by eapply Forall2_lookup_r.
Qed.

Section Values.

Variable random : nat -> Q.
Hypothesis random_range : forall n, 0 <= random n < 1.

(** [rand(min, max)] draws once and stays between its bounds. *)
Lemma rand_between (min max : Q) (s : nat) :
  min <= max ->
  exists r, rand random min max s = Ret r (Datatypes.S s) /\ min <= r <= max.
Proof.
  intros H. eexists. split; [reflexivity|].
  destruct (random_range s) as [H0 H1].
  assert (0 <= random s * (max - min)) by (apply Qmult_le_0_compat; lra).
  assert (0 <= (1 - random s) * (max - min)) by (apply Qmult_le_0_compat; lra).
  lra.
Qed.

(** The two-decimal rendering of a draw stays between those of the bounds. *)
Lemma rand_fixed (min max : Q) (s : nat) :
  min <= max ->
  exists r, rand random min max s = Ret r (Datatypes.S s) /\
            toFixed2 min <= toFixed2 r <= toFixed2 max.
Proof.
  intros H. destruct (rand_between min max s H) as (r & Hr & Hlo & Hhi).
  exists r. split; [exact Hr|]. split; by apply toFixed2_mono.
Qed.

Lemma randInt_range (min max : Q) (s : nat) :
  min <= max + 1 ->
  exists z, randInt random min max s = Ret z (Datatypes.S s) /\
            min - 1 < inject_Z z /\ (min < max + 1 -> inject_Z z < max + 1).
Proof.
  intros H. eexists. split; [reflexivity|].
  destruct (random_range s) as [H0 H1].
  set (x := random s * (max + 1 - min) + min).
  assert (0 <= random s * (max + 1 - min)) by (apply Qmult_le_0_compat; lra).
  pose proof (Qfloor_bounds x) as [Hlo Hhi].
  unfold Math_floor. split; [unfold x in *; lra|].
  intros Hlt.
  assert (0 < (1 - random s) * (max + 1 - min)) by (apply Qmult_lt_0_compat; lra).
  unfold x in *; lra.
Qed.

Lemma randInt_integers (min max : Q) (lo hi : Z) (s : nat) :
  min == inject_Z lo -> max == inject_Z hi -> (lo <= hi)%Z ->
  exists z, randInt random min max s = Ret z (Datatypes.S s) /\ (lo <= z <= hi)%Z.
Proof.
  intros Hmin Hmax Hle.
  assert (inject_Z lo <= inject_Z hi) as Hq by (by rewrite <- Zle_Qle).
  destruct (randInt_range min max s) as (z & Hrun & Hlo & Hhi); [lra|].
  exists z. split; [exact Hrun|].
  assert (inject_Z (lo - 1) < inject_Z z) as H1.
  { replace (lo - 1)%Z with (lo + -1)%Z by lia. rewrite inject_Z_plus.
    change (inject_Z (-1)) with (-1). lra. }
  assert (inject_Z z < inject_Z (hi + 1)) as H2.
  { rewrite inject_Z_plus. change (inject_Z 1) with 1.
    rewrite <- Hmax. apply Hhi. lra. }
  rewrite <- Zlt_Qlt in H1, H2. lia.
Qed.



(** *** line *)

(** X2: with [min <= max], whatever the random values: one series per
    counter below [series], named L1, L2, ...; each has one point per
    counter below [points]; point [i] is stamped [start + i * interval]
    and its value lies between the two-decimal renderings of [min] and
    [max]. *)
Theorem generateLine_clamped (now : Q) (cfg : config) (s : nat) :
  let series := field cfg "series" 2 in
  let points := field cfg "points" 200 in
  let start := field cfg "start" (now - points * 60000) in
  let interval := field cfg "interval" 60000 in
  let min := field cfg "min" 0 in
  let max := field cfg "max" 100 in
  min <= max ->
  exists out s', generateLine random now cfg s = Ret out s' /\
    length out = length (range 0 series) /\
    forall (k : nat) l, out !! k = Some l ->
      ls_name l = "L" +:+ str (Z.of_nat k + 1) /\
      length (ls_data l) = length (range 0 points) /\
      forall (i : nat) p, ls_data l !! i = Some p ->
        p.1 = start + num i * interval /\
        toFixed2 min <= p.2 <= toFixed2 max.
Proof.
  intros series points start interval min max Hmm.
  unfold generateLine.
  fold series points start interval min max.
  unfold range. rewrite !length_seq.
  set (m := (Z.to_nat (Qceiling points) - 0)%nat).
  apply (for_counted _ 0 _ (fun k (out : list line_series) (_ : nat) =>
    length out = k /\
    forall (j : nat) l, out !! j = Some l ->
      ls_name l = "L" +:+ str (Z.of_nat j + 1) /\
      length (ls_data l) = m /\
      forall (i : nat) p, ls_data l !! i = Some p ->
        p.1 = start + num i * interval /\
        toFixed2 min <= p.2 <= toFixed2 max)).
  2:{ split; [done|]. intros j l Hj. by rewrite lookup_nil in Hj. }
  intros k out s0 Hk [Hlen Hout]. cbv beta.
  destruct (for_counted
    (fun (i : nat) '(base, data) =>
       let* step := rand random (- field cfg "volatility" 10)
                         (field cfg "volatility" 10) in
       let base := base + step in
       let base := if Qlt_le_dec base min then min else base in
       let base := if Qlt_le_dec max base then max else base in
       ret (base, data ++ [(start + num i * interval, toFixed2 base)]))
    0 m
    (fun i (bd : Q * list (Q * Q)) (_ : nat) =>
       length bd.2 = i /\
       forall (j : nat) p, bd.2 !! j = Some p ->
         p.1 = start + num j * interval /\
         toFixed2 min <= p.2 <= toFixed2 max))
    with (acc := (random s0 * (max - min) + min, @nil (Q * Q)))
         (s := Datatypes.S s0)
    as ([base data] & s1 & Hrun & Hdl & Hdata).
  - intros i [base data] s1 Hi [Hdl Hdata]. simpl in *.
    eexists (_, _), _. split; [reflexivity|]. simpl.
    split; [rewrite length_app; simpl; lia|].
    intros j p Hj. apply lookup_app_Some in Hj as [Hj|[Hge Hj]];
      [by apply Hdata|].
    apply list_lookup_singleton_Some in Hj as [Hidx <-]. simpl.
    assert (j = i) as -> by lia. split; [done|].
    split; apply toFixed2_mono; repeat destruct (Qlt_le_dec _ _); lra.
  - simpl. split; [done|]. intros j p Hj. by rewrite lookup_nil in Hj.
  - eexists _, _. split.
    { rewrite (bind_run _ _ _ _ _ (rand_run _ _ _ _)).
      rewrite (bind_run _ _ _ _ _ Hrun). reflexivity. }
    split; [rewrite length_app; simpl; lia|].
    intros j l Hj. apply lookup_app_Some in Hj as [Hj|[Hge Hj]];
      [by apply Hout|].
    apply list_lookup_singleton_Some in Hj as [Hidx <-]. simpl.
    assert (j = k) as -> by lia. by split.
Qed.


(** *** bar, pie, pictorialBar, radar, gauge *)

Lemma fixed_draws {I} (min max : Q) (l : list I) (s : nat) :
  min <= max ->
  exists ys s',
    mapM (fun _ : I => let* r := rand random min max in ret (toFixed2 r)) l s
      = Ret ys s' /\
    length ys = length l /\
    forall y, y ∈ ys -> toFixed2 min <= y <= toFixed2 max.
Proof.
  intros H.
  destruct (mapM_lookup
    (fun _ : I => let* r := rand random min max in ret (toFixed2 r))
    (fun _ y => toFixed2 min <= y <= toFixed2 max) l) with (s := s)
    as (ys & s' & Hrun & Hlen & Hys).
  { intros x s0 _. destruct (rand_fixed min max s0 H) as (r & Hr & Hb).
    exists (toFixed2 r), (Datatypes.S s0). split; [|exact Hb].
    by rewrite (bind_run _ _ _ _ _ Hr). }
  exists ys, s'. split; [exact Hrun|]. split; [exact Hlen|].
  intros y [i Hi]%list_elem_of_lookup_1.
  by destruct (Hys i y Hi) as (_ & _ & Hb).
Qed.

(** X3: with [min <= max] and random values in [0, 1): the categories are
    C1, C2, ...; there is one series per unit of [series], named S1, S2,
    ...; every series has exactly one value per category; no value is
    missing and each lies between the two-decimal renderings of [min] and
    [max]. *)
Theorem generateBar_rectangular (cfg : config) (s : nat) :
  let min := field cfg "min" 10 in
  let max := field cfg "max" 120 in
  min <= max ->
  exists d s', generateBar random cfg s = Ret d s' /\
    categories d = (fun i : nat => "C" +:+ str (Z.of_nat i + 1)) <$>
                     seq 0 (ToLength (field cfg "categories" 8)) /\
    length (series d) = ToLength (field cfg "series" 2) /\
    forall (k : nat) b, series d !! k = Some b ->
      bs_name b = "S" +:+ str (Z.of_nat k + 1) /\
      length (bs_data b) = length (categories d) /\
      forall v, v ∈ bs_data b ->
        exists q, v = Some q /\ toFixed2 min <= q <= toFixed2 max.
Proof.
  intros min max Hmm. unfold generateBar. fold min max.
  unfold Array_from at 1.
  set (cats := (fun i : nat => "C" +:+ str (Z.of_nat i + 1)) <$>
                 seq 0 (ToLength (field cfg "categories" 8))).
  rewrite (bind_run _ _ _ _ _ (mapM_ret _ _ s)). fold cats.
  unfold Array_from.
  destruct (mapM_lookup
    (fun s0 : nat =>
       let* data := mapM (fun _ : string =>
          let* r := rand random min max in ret (Some (toFixed2 r))) cats in
       ret (MkBarSeries ("S" +:+ str (Z.of_nat s0 + 1)) data))
    (fun (k : nat) b =>
       bs_name b = "S" +:+ str (Z.of_nat k + 1) /\
       length (bs_data b) = length cats /\
       forall v, v ∈ bs_data b ->
         exists q, v = Some q /\ toFixed2 min <= q <= toFixed2 max)
    (seq 0 (ToLength (field cfg "series" 2)))) with (s := s)
    as (ser & s' & Hrun & Hlen & Hser).
  { intros k s0 _.
    destruct (mapM_lookup
      (fun _ : string => let* r := rand random min max in ret (Some (toFixed2 r)))
      (fun _ v => exists q, v = Some q /\ toFixed2 min <= q <= toFixed2 max)
      cats) with (s := s0) as (data & s1 & Hd & Hdl & Hdata).
    { intros c s1 _. destruct (rand_fixed min max s1 Hmm) as (r & Hr & Hb).
      exists (Some (toFixed2 r)), (Datatypes.S s1).
      split; [by rewrite (bind_run _ _ _ _ _ Hr)|]. by exists (toFixed2 r). }
    exists (MkBarSeries ("S" +:+ str (Z.of_nat k + 1)) data), s1.
    split; [by rewrite (bind_run _ _ _ _ _ Hd)|].
    split; [done|]. split; [done|].
    intros v [i Hi]%list_elem_of_lookup_1.
    by destruct (Hdata i v Hi) as (_ & _ & Hb). }
  exists (MkBarData cats ser), s'.
  split; [by rewrite (bind_run _ _ _ _ _ Hrun)|].
  split; [done|]. split; [simpl; by rewrite Hlen, length_seq|].
  intros k b Hk. destruct (Hser k b Hk) as (k' & Hk' & Hb).
  apply lookup_seq in Hk' as [-> _]. exact Hb.
Qed.

(** X4: with [min <= max] and random values in [0, 1), the slices are
    Slice1, Slice2, ..., one per unit of [slices], each with a value
    between the two-decimal renderings of [min] and [max]. *)
Theorem generatePie_slices (cfg : config) (s : nat) :
  let min := field cfg "min" 10 in
  let max := field cfg "max" 200 in
  min <= max ->
  exists out s', generatePie random cfg s = Ret out s' /\
    length out = ToLength (field cfg "slices" 6) /\
    forall (i : nat) p, out !! i = Some p ->
      nv_name p = "Slice" +:+ str (Z.of_nat i + 1) /\
      toFixed2 min <= nv_value p <= toFixed2 max.
Proof.
  intros min max Hmm. unfold generatePie, Array_from. fold min max.
  destruct (mapM_lookup
    (fun i : nat =>
       let* r := rand random min max in
       ret (Named ("Slice" +:+ str (Z.of_nat i + 1)) (toFixed2 r)))
    (fun (i : nat) p =>
       nv_name p = "Slice" +:+ str (Z.of_nat i + 1) /\
       toFixed2 min <= nv_value p <= toFixed2 max)
    (seq 0 (ToLength (field cfg "slices" 6)))) with (s := s)
    as (out & s' & Hrun & Hlen & Hout).
  { intros i s0 _. destruct (rand_fixed min max s0 Hmm) as (r & Hr & Hb).
    eexists _, _. split; [by rewrite (bind_run _ _ _ _ _ Hr)|]. by split. }
  exists out, s'. split; [exact Hrun|]. split; [by rewrite Hlen, length_seq|].
  intros i p Hi. destruct (Hout i p Hi) as (i' & Hi' & Hp).
  apply lookup_seq in Hi' as [-> _]. exact Hp.
Qed.

(** X5: with [min <= max] and random values in [0, 1), the entries are
    named P1, P2, ..., one per unit of [categories], each with a value
    between the two-decimal renderings of [min] and [max]. *)
Theorem generatePictorialBar_entries (cfg : config) (s : nat) :
  let min := field cfg "min" 10 in
  let max := field cfg "max" 150 in
  min <= max ->
  exists out s', generatePictorialBar random cfg s = Ret out s' /\
    length out = ToLength (field cfg "categories" 6) /\
    forall (i : nat) p, out !! i = Some p ->
      nv_name p = "P" +:+ str (Z.of_nat i + 1) /\
      toFixed2 min <= nv_value p <= toFixed2 max.
Proof.
  intros min max Hmm. unfold generatePictorialBar, Array_from. fold min max.
  rewrite (bind_run _ _ _ _ _ (mapM_ret _ _ s)).
  set (cats := (fun i : nat => "P" +:+ str (Z.of_nat i + 1)) <$> _).
  destruct (mapM_lookup
    (fun c : string =>
       let* r := rand random min max in ret (Named c (toFixed2 r)))
    (fun c p => nv_name p = c /\ toFixed2 min <= nv_value p <= toFixed2 max)
    cats) with (s := s) as (out & s' & Hrun & Hlen & Hout).
  { intros c s0 _. destruct (rand_fixed min max s0 Hmm) as (r & Hr & Hb).
    eexists _, _. split; [by rewrite (bind_run _ _ _ _ _ Hr)|]. by split. }
  exists out, s'. split; [exact Hrun|].
  split; [by rewrite Hlen; unfold cats; rewrite length_fmap, length_seq|].
  intros i p Hi. destruct (Hout i p Hi) as (c & Hc & Hn & Hp).
  unfold cats in Hc. rewrite list_lookup_fmap in Hc.
  destruct (seq _ _ !! i) as [i'|] eqn:Hi'; [|done].
  apply lookup_seq in Hi' as [-> _]. simpl in Hc. injection Hc as <-.
  by split.
Qed.

(** X6: with [min <= max] and random values in [0, 1): one indicator per
    unit of [axes], named Dim1, Dim2, ..., each with [max] as its maximum;
    one series per unit of [series], named R1, R2, ...; every series has
    exactly one value per indicator, each between the two-decimal
    renderings of [min] and [max]. *)
Theorem generateRadar_axes (cfg : config) (s : nat) :
  let min := field cfg "min" 0 in
  let max := field cfg "max" 100 in
  min <= max ->
  exists d s', generateRadar random cfg s = Ret d s' /\
    indicators d = (fun i : nat => Indicator ("Dim" +:+ str (Z.of_nat i + 1)) max)
                     <$> seq 0 (ToLength (field cfg "axes" 6)) /\
    length (r_series d) = ToLength (field cfg "series" 3) /\
    forall (k : nat) r, r_series d !! k = Some r ->
      r_name r = "R" +:+ str (Z.of_nat k + 1) /\
      length (r_value r) = length (indicators d) /\
      forall v, v ∈ r_value r -> toFixed2 min <= v <= toFixed2 max.
Proof.
  intros min max Hmm. unfold generateRadar. fold min max.
  unfold Array_from at 1.
  rewrite (bind_run _ _ _ _ _ (mapM_ret _ _ s)).
  set (inds := (fun i : nat => Indicator _ max) <$> _).
  unfold Array_from.
  destruct (mapM_lookup
    (fun s0 : nat =>
       let* value := mapM (fun _ : indicator =>
          let* r := rand random min max in ret (toFixed2 r)) inds in
       ret (RadarSeries ("R" +:+ str (Z.of_nat s0 + 1)) value))
    (fun (k : nat) r =>
       r_name r = "R" +:+ str (Z.of_nat k + 1) /\
       length (r_value r) = length inds /\
       forall v, v ∈ r_value r -> toFixed2 min <= v <= toFixed2 max)
    (seq 0 (ToLength (field cfg "series" 3)))) with (s := s)
    as (ser & s' & Hrun & Hlen & Hser).
  { intros k s0 _.
    destruct (fixed_draws min max inds s0 Hmm) as (vs & s1 & Hvs & Hvl & Hb).
    exists (RadarSeries ("R" +:+ str (Z.of_nat k + 1)) vs), s1.
    split; [by rewrite (bind_run _ _ _ _ _ Hvs)|]. by split. }
  exists (Radar inds ser), s'.
  split; [by rewrite (bind_run _ _ _ _ _ Hrun)|].
  split; [done|]. split; [simpl; by rewrite Hlen, length_seq|].
  intros k r Hk. destruct (Hser k r Hk) as (k' & Hk' & Hr).
  apply lookup_seq in Hk' as [-> _]. exact Hr.
Qed.


(** *** gauge *)

Lemma toFixed2_integer (x : Q) (z : Z) : x == inject_Z z -> toFixed2 x == x.
Proof.
  intros H. pose proof (toFixed2_Z z) as Hz.
  assert (toFixed2 x <= toFixed2 (inject_Z z)) by (apply toFixed2_mono; lra).
  assert (toFixed2 (inject_Z z) <= toFixed2 x) by (apply toFixed2_mono; lra).
  lra.
Qed.

(** X7: with [min <= max] and random values in [0, 1), the gauge carries
    the configured bounds and a reading between their two-decimal
    renderings; with integral bounds the reading lies between the bounds
    themselves. *)
Theorem generateGauge_reading (cfg : config) (s : nat) :
  let min := field cfg "min" 0 in
  let max := field cfg "max" 100 in
  min <= max ->
  exists g s', generateGauge random cfg s = Ret g s' /\
    g_min g = min /\ g_max g = max /\
    toFixed2 min <= g_value g <= toFixed2 max /\
    forall lo hi : Z, min == inject_Z lo -> max == inject_Z hi ->
      min <= g_value g <= max.
Proof.
  intros min max Hmm. unfold generateGauge. fold min max.
  destruct (rand_fixed min max s Hmm) as (r & Hr & Hb).
  exists (Gauge (toFixed2 r) min max), (Datatypes.S s).
  split; [by rewrite (bind_run _ _ _ _ _ Hr)|].
  split; [done|]. split; [done|]. split; [exact Hb|].
  intros lo hi Hlo Hhi. simpl.
  pose proof (toFixed2_integer min lo Hlo).
  pose proof (toFixed2_integer max hi Hhi). lra.
Qed.

End Values.

Lemma percent_unit (min max v : Q) :
  min < max -> min <= v <= max -> 0 <= (v - min) / (max - min) <= 1.
Proof.
  intros Hlt [Hlo Hhi]. split.
  - apply Qle_shift_div_l; lra.
  - apply Qle_shift_div_r; lra.
Qed.

(** X8: for a reading between the bounds, the two doughnut segments of
    the Chart.js gauge lie between 0 and 100 and add up to 100, also when
    the bounds coincide (the zero range is replaced by 1). *)
Theorem buildConfig_gauge_segments (raw : gauge) :
  g_min raw <= g_value raw <= g_max raw ->
  0 <= (buildConfig_gauge raw).1 <= 100 /\
  0 <= (buildConfig_gauge raw).2 <= 100 /\
  (buildConfig_gauge raw).1 + (buildConfig_gauge raw).2 == 100.
Proof.
  intros [Hlo Hhi]. unfold buildConfig_gauge. simpl.
  destruct (Qeq_bool (g_max raw - g_min raw) 0) eqn:Hz.
  - apply Qeq_bool_eq in Hz.
    assert ((g_value raw - g_min raw) / 1 * 100 == 0) as ->
      by (unfold Qdiv; change (/ 1) with 1; lra).
    lra.
  - apply Qeq_bool_neq in Hz.
    destruct (percent_unit (g_min raw) (g_max raw) (g_value raw)) as [H0 H1];
      [lra|done|].
    set (p := (g_value raw - g_min raw) / (g_max raw - g_min raw)) in *. lra.
Qed.

(** X9: for bounds [min < max], a reading between them and a plotting
    area that is not of negative width, the uPlot gauge draws the background
    bar, the foreground bar and the label, in this order; the foreground
    bar starts where the background does, its width is the area width times
    (value - min) / (max - min), and it is not wider than the background. *)
Theorem gaugePlugin_foreground_within
    (Number_toString : Q -> string) (raw : gauge) (u : uPlot) (c : Canvas) :
  let percent := (g_value raw - g_min raw) / (g_max raw - g_min raw) in
  g_min raw < g_max raw -> g_min raw <= g_value raw <= g_max raw ->
  0 <= width (bbox u) ->
  exists c' y text tx ty,
    gaugePlugin_draw Number_toString raw u c = Ret tt c' /\
    drawn c' = drawn c ++
      [FillRect "#f0f0f0" (left (bbox u)) y (width (bbox u)) 30;
       FillRect (palette_at 0) (left (bbox u)) y (width (bbox u) * percent) 30;
       FillText "#333" "14px sans-serif" "center" "middle" text tx ty] /\
    0 <= width (bbox u) * percent <= width (bbox u).
Proof.
  intros percent Hlt Hv Hw.
  cbv beta iota zeta delta
    [gaugePlugin_draw bind set_fillStyle set_font set_textAlign set_textBaseline
     fillRect fillText fillStyle font textAlign textBaseline drawn].
  eexists _, _, _, _, _. split; [reflexivity|].
  cbv beta iota delta [drawn]. rewrite <- !app_assoc.
  split; [reflexivity|].
  destruct (percent_unit _ _ _ Hlt Hv) as [H0 H1]. fold percent in H0, H1.
  assert (0 <= width (bbox u) * percent) by (apply Qmult_le_0_compat; lra).
  assert (0 <= width (bbox u) * (1 - percent)) by (apply Qmult_le_0_compat; lra).
  lra.
Qed.

(** *** scatter *)




Lemma at_number_nil {A} (k : option Q) : at_number (@nil A) k = None.
Proof.
  destruct k as [q|]; [|done]. unfold at_number, at_index.
  destruct (Qeq_bool _ _); [|done]. by destruct (_ <? _)%Z.
Qed.

(** A loop runs its body at least once when the first counter passes the
    test. *)
Lemma range_cons (lo : nat) (n : Q) :
  num lo < n -> exists rest, range lo n = lo :: rest.
Proof.
  intros H. assert (lo ∈ range lo n) as Hin by (by apply elem_of_range).
  unfold range in *. destruct (Z.to_nat (Qceiling n) - lo)%nat as [|m].
  - by apply elem_of_nil in Hin.
  - by exists (seq (Datatypes.S lo) m).
Qed.

Lemma ToLength_zero (q : Q) : q < 1 -> ToLength q = 0%nat.
Proof.
  intros H. destruct (ToLength q) as [|m] eqn:Hm; [done|].
  assert (0 < ToLength q)%nat as H0 by lia.
  apply ToLength_spec in H0. change (num 0) with 0 in H0. lra.
Qed.

Section Scatter.

Variable random : nat -> Q.
Hypothesis random_range : forall n, 0 <= random n < 1.

(** X10: without a whole cluster ([clusters < 1], so no centre is drawn)
    a request for at least one point fails with a [TypeError], for the
    centre of the first point is [undefined]. *)
Theorem generateScatter_no_cluster (cfg : config) (s : nat) :
  field cfg "clusters" 3 < 1 -> 0 < field cfg "points" 500 ->
  generateScatter random cfg s = Throw TypeError.
Proof.
  intros Hc Hp. unfold generateScatter, Array_from.
  rewrite (ToLength_zero _ Hc).
  destruct (range_cons 0 (field cfg "points" 500) Hp) as [rest ->].
  simpl. unfold bind at 1. simpl. unfold bind at 1.
  by rewrite at_number_nil.
Qed.


End Scatter.

(** *** heatmap and matrix *)

Lemma grid_position (X xi yi : nat) :
  (xi < X)%nat ->
  ((yi * X + xi) mod X = xi /\ (yi * X + xi) / X = yi)%nat.
Proof.
  intros H. split.
  - rewrite Nat.add_comm, Nat.Div0.mod_add. by apply Nat.mod_small.
  - rewrite Nat.add_comm, Nat.div_add by lia. rewrite Nat.div_small by done. lia.
Qed.

(** The cells are produced row after row: cell [j] lies in column
    [j mod X] of row [j / X]. *)
Lemma generateHeatmap_rows (random : nat -> Q) (cfg : config) (s : nat) :
  let X := ToLength (field cfg "x" 12) in
  let Y := ToLength (field cfg "y" 7) in
  exists h s', generateHeatmap random cfg s = Ret h s' /\
    xLabels h = (fun i : nat => "X" +:+ str (Z.of_nat i + 1)) <$> seq 0 X /\
    yLabels h = (fun i : nat => "Y" +:+ str (Z.of_nat i + 1)) <$> seq 0 Y /\
    length (cells h) = (Y * X)%nat /\
    forall (j : nat) c, cells h !! j = Some c ->
      c.1 = ((j mod X)%nat, (j / X)%nat).
Proof.
  intros X Y. unfold generateHeatmap, Array_from. fold X Y.
  rewrite (bind_run _ _ _ _ _ (mapM_ret _ _ s)).
  rewrite (bind_run _ _ _ _ _ (mapM_ret _ _ s)).
  rewrite !length_fmap, !length_seq.
  set (xl := _ <$> seq 0 X). set (yl := _ <$> seq 0 Y).
  destruct (for_counted
    (fun (yi : nat) (data : list (nat * nat * Q)) =>
       for_ (seq 0 X) (fun (xi : nat) (data : list (nat * nat * Q)) =>
         let* r := rand random (field cfg "min" 0) (field cfg "max" 100) in
         ret (data ++ [(xi, yi, toFixed2 r)])) data)
    0 Y
    (fun yi (data : list (nat * nat * Q)) (_ : nat) =>
       length data = (yi * X)%nat /\
       forall (j : nat) c, data !! j = Some c ->
         c.1 = ((j mod X)%nat, (j / X)%nat)))
    with (acc := @nil (nat * nat * Q)) (s := s)
    as (data & s' & Hrun & Hlen & Hdata).
  - intros yi data s0 Hyi [Hlen Hdata]. change (0 + yi)%nat with yi.
    destruct (for_counted
      (fun (xi : nat) (data : list (nat * nat * Q)) =>
         let* r := rand random (field cfg "min" 0) (field cfg "max" 100) in
         ret (data ++ [(xi, yi, toFixed2 r)])) 0 X
      (fun xi (data : list (nat * nat * Q)) (_ : nat) =>
         length data = (yi * X + xi)%nat /\
         forall (j : nat) c, data !! j = Some c ->
           c.1 = ((j mod X)%nat, (j / X)%nat)))
      with (acc := data) (s := s0) as (row & s1 & Hrow & Hrl & Hrd).
    + intros xi data1 s1 Hxi [Hlen1 Hdata1]. change (0 + xi)%nat with xi.
      eexists _, _.
      split; [by rewrite (bind_run _ _ _ _ _ (rand_run _ _ _ _))|].
      split; [rewrite length_app; simpl; lia|].
      intros j c Hj. apply lookup_app_Some in Hj as [Hj|[Hge Hj]];
        [by apply Hdata1|].
      apply list_lookup_singleton_Some in Hj as [Hidx <-]. simpl.
      assert (j = yi * X + xi)%nat as -> by lia.
      by destruct (grid_position X xi yi Hxi) as [-> ->].
    + split; [lia|done].
    + exists row, s1. split; [exact Hrow|]. split; [lia|exact Hrd].
  - split; [done|]. intros j c Hj. by rewrite lookup_nil in Hj.
  - exists (Heatmap xl yl data), s'.
    split; [by rewrite (bind_run _ _ _ _ _ Hrun)|]. done.
Qed.

(** X12: whatever the configuration and the random values, the heat map
    (and the matrix, which is the same function) has one cell for every
    pair of an x label and a y label and no other cell: the cell of column
    [xi] and row [yi] is at position [yi * X + xi] and nowhere else. *)
Theorem generateHeatmap_covers (random : nat -> Q) (cfg : config) (s : nat) :
  exists h s', generateMatrix random cfg s = Ret h s' /\
    generateHeatmap random cfg s = Ret h s' /\
    length (xLabels h) = ToLength (field cfg "x" 12) /\
    length (yLabels h) = ToLength (field cfg "y" 7) /\
    length (cells h) = (length (yLabels h) * length (xLabels h))%nat /\
    (forall xi yi : nat,
       (xi < length (xLabels h))%nat -> (yi < length (yLabels h))%nat ->
       exists v, cells h !! (yi * length (xLabels h) + xi)%nat = Some (xi, yi, v)) /\
    forall (j : nat) xi yi v, cells h !! j = Some (xi, yi, v) ->
      (xi < length (xLabels h))%nat /\ (yi < length (yLabels h))%nat /\
      j = (yi * length (xLabels h) + xi)%nat.
Proof.
  destruct (generateHeatmap_rows random cfg s)
    as (h & s' & Hrun & Hx & Hy & Hlen & Hcells).
  exists h, s'. split; [exact Hrun|]. split; [exact Hrun|].
  rewrite Hx, Hy, !length_fmap, !length_seq.
  set (X := ToLength (field cfg "x" 12)) in *.
  set (Y := ToLength (field cfg "y" 7)) in *.
  split; [done|]. split; [done|]. split; [exact Hlen|]. split.
  - intros xi yi Hxi Hyi.
    destruct (lookup_lt_is_Some_2 (cells h) (yi * X + xi)%nat)
      as [[[x y] v] Hc]; [rewrite Hlen; nia|].
    exists v. rewrite Hc. apply Hcells in Hc. simpl in Hc.
    destruct (grid_position X xi yi Hxi) as [Hm Hd].
    rewrite Hm, Hd in Hc. by injection Hc as -> ->.
  - intros j xi yi v Hj.
    pose proof (lookup_lt_Some _ _ _ Hj) as Hlt. rewrite Hlen in Hlt.
    apply Hcells in Hj. simpl in Hj. injection Hj as -> ->.
    assert (X <> 0)%nat as HX by (intros ->; lia).
    split; [by apply Nat.mod_upper_bound|].
    split; [apply Nat.Div0.div_lt_upper_bound; lia|].
    rewrite (Nat.div_mod_eq j X) at 1. lia.
Qed.

Lemma find_unique {A} (f : A -> bool) (l : list A) (j : nat) (c : A) :
  l !! j = Some c -> f c = true ->
  (forall (j' : nat) c', l !! j' = Some c' -> f c' = true -> j' = j) ->
  find f l = Some c.
Proof.
  revert j. induction l as [|a l IH]; intros j Hj Hc Huniq; [done|].
  simpl. destruct (f a) eqn:Ha.
  - assert (0%nat = j) as <- by (by apply (Huniq 0%nat a)).
    simpl in Hj. by injection Hj as ->.
  - destruct j as [|j]; [simpl in Hj; congruence|].
    apply (IH j); [done|done|].
    intros j' c' Hj' Hc'. by injection (Huniq (Datatypes.S j') c' Hj' Hc').
Qed.

(** X13: the ApexCharts heat map built from a generated heat map has one
    series per y label and, in each, one point per x label; no point is
    [null]: the point of column [xi] in the series of row [yi] carries the
    value of the cell at position [yi * X + xi]. *)
Theorem mapToApex_heatmap_complete (random : nat -> Q) (cfg : config) (s : nat) :
  exists h s', generateHeatmap random cfg s = Ret h s' /\
    length (mapToApex_heatmap h) = length (yLabels h) /\
    forall (yi : nat) row, mapToApex_heatmap h !! yi = Some row ->
      yLabels h !! yi = Some row.1 /\
      length row.2 = length (xLabels h) /\
      forall (xi : nat) pt, row.2 !! xi = Some pt ->
        xLabels h !! xi = Some pt.1 /\
        exists v, pt.2 = Some v /\
          cells h !! (yi * length (xLabels h) + xi)%nat = Some (xi, yi, v).
Proof.
  destruct (generateHeatmap_rows random cfg s)
    as (h & s' & Hrun & Hx & Hy & Hlen & Hcells).
  exists h, s'. split; [exact Hrun|].
  unfold mapToApex_heatmap. split; [by rewrite length_imap|].
  assert (length (xLabels h) = ToLength (field cfg "x" 12)) as HX
    by (by rewrite Hx, length_fmap, length_seq).
  assert (length (yLabels h) = ToLength (field cfg "y" 7)) as HY
    by (by rewrite Hy, length_fmap, length_seq).
  rewrite HX. clear Hx Hy.
  set (X := ToLength (field cfg "x" 12)) in *.
  set (Y := ToLength (field cfg "y" 7)) in *.
  intros yi row Hrow. rewrite list_lookup_imap in Hrow.
  destruct (yLabels h !! yi) as [yl|] eqn:Hyl; [|done].
  simpl in Hrow. injection Hrow as <-. simpl.
  split; [done|]. split; [by rewrite length_imap|].
  intros xi pt Hpt. rewrite list_lookup_imap in Hpt.
  destruct (xLabels h !! xi) as [xl|] eqn:Hxl; [|done].
  simpl in Hpt. injection Hpt as <-. simpl. split; [done|].
  apply lookup_lt_Some in Hyl, Hxl. rewrite HY in Hyl. rewrite HX in Hxl.
  destruct (lookup_lt_is_Some_2 (cells h) (yi * X + xi)%nat)
    as [[[x y] v] Hc]; [rewrite Hlen; nia|].
  pose proof (Hcells _ _ Hc) as Hpos. simpl in Hpos.
  destruct (grid_position X xi yi Hxl) as [Hm Hd].
  rewrite Hm, Hd in Hpos. injection Hpos as -> ->.
  exists v. split; [|exact Hc].
  rewrite (find_unique _ _ (yi * X + xi)%nat (xi, yi, v) Hc); [done| |].
  - simpl. by rewrite !Nat.eqb_refl.
  - intros j' [[x' y'] v'] Hj' Hf. simpl in Hf.
    apply andb_true_iff in Hf as [Hf1%Nat.eqb_eq Hf2%Nat.eqb_eq]. subst x' y'.
    pose proof (Hcells _ _ Hj') as Hpos. simpl in Hpos.
    injection Hpos as Hmod Hdiv.
    rewrite (Nat.div_mod_eq j' X). rewrite <- Hmod, <- Hdiv. lia.
Qed.

(** *** sankey *)

(** A [while] loop whose body keeps an invariant and lowers a measure
    ends within as many passes as the measure allows. *)
Lemma while_terminates {St A} (test : A -> bool) (body : A -> M St A)
    (measure : A -> nat) (Inv : A -> St -> Prop) :
  (forall acc s, Inv acc s -> test acc = true ->
     exists acc' s', body acc s = Ret acc' s' /\ Inv acc' s' /\
                     (measure acc' < measure acc)%nat) ->
  forall fuel acc s, Inv acc s -> (measure acc <= fuel)%nat ->
  exists acc' s', while_ fuel test body acc s = Ret (Some acc') s' /\
                  Inv acc' s' /\ test acc' = false.
Proof.
  intros Hstep. induction fuel as [|fuel IH]; intros acc s Hinv Hm.
  - simpl. destruct (test acc) eqn:Ht; [|by exists acc, s].
    destruct (Hstep acc s Hinv Ht) as (? & ? & _ & _ & Hlt). lia.
  - simpl. destruct (test acc) eqn:Ht; [|by exists acc, s].
    destruct (Hstep acc s Hinv Ht) as (acc1 & s1 & Hb & Hinv1 & Hlt).
    destruct (IH acc1 s1 Hinv1) as (acc2 & s2 & Hw & Hinv2 & Ht2); [lia|].
    exists acc2, s2. by rewrite (bind_run _ _ _ _ _ Hb).
Qed.

(** The test [linkArr.length < links] holds for the lengths below the
    number of counters below [links]. *)
Lemma length_test (len : nat) (links : Q) :
  (if Qlt_le_dec (num len) links then true else false) = true <->
  (len < length (range 0 links))%nat.
Proof.
  pose proof (elem_of_range 0 len links) as Hr.
  unfold range in *. rewrite length_seq. rewrite elem_of_seq in Hr.
  destruct (Qlt_le_dec (num len) links) as [H|H]; split; intros H'; try done.
  - apply Hr. split; [lia|done].
  - assert (num len < links); [|lra]. apply Hr. lia.
Qed.

Lemma randInt_run (random : nat -> Q) (min max : Q) (s : nat) :
  randInt random min max s
  = Ret (Math_floor (random s * (max + 1 - min) + min)) (Datatypes.S s).
Proof. reflexivity. Qed.

Section Sankey.

Variable random : nat -> Q.
Hypothesis random_range : forall n, 0 <= random n < 1.


End Sankey.

(** X15: with a single node the links dangle: whatever the random values,
    every link leads from N0 to N1, and N0 is the only node. *)
Theorem generateSankey_single_node
    (random : nat -> Q) (fuel : nat) (cfg : config) (s : nat) :
  let links := field cfg "links" 15 in
  field cfg "nodes" 8 == 1 -> (length (range 0 links) <= fuel)%nat ->
  exists d s', generateSankey random fuel cfg s = Ret (Some d) s' /\
    sk_nodes d = ["N0"] /\
    length (sk_links d) = length (range 0 links) /\
    forall l, l ∈ sk_links d -> l_source l = "N0" /\ l_target l = "N1".
Proof.
  intros links Hn Hfuel. unfold generateSankey, Array_from. fold links.
  rewrite (bind_run _ _ _ _ _ (mapM_ret _ _ s)).
  assert (ToLength (field cfg "nodes" 8) = 1%nat) as ->.
  { unfold ToLength. by rewrite Hn. }
  set (test := fun linkArr : list link =>
       if Qlt_le_dec (num (length linkArr)) links then true else false).
  set (body := fun linkArr : list link => _ : M nat (list link)).
  destruct (while_terminates test body
    (fun linkArr => (length (range 0 links) - length linkArr)%nat)
    (fun linkArr (_ : nat) =>
       (length linkArr <= length (range 0 links))%nat /\
       forall l, l ∈ linkArr -> l_source l = "N0" /\ l_target l = "N1"))
    with (fuel := fuel) (acc := @nil link) (s := s)
    as (linkArr & s' & Hrun & [Hle Hlinks] & Hend).
  - intros acc s0 [Hle Hacc] Ht. apply length_test in Ht. unfold body.
    rewrite (bind_run _ _ _ _ _ (randInt_run _ _ _ _)).
    assert (Math_floor (random s0 * (field cfg "nodes" 8 - 2 + 1 - 0) + 0) = 0%Z)
      as ->.
    { unfold Math_floor. rewrite Hn.
      assert (random s0 * (1 - 2 + 1 - 0) + 0 == inject_Z 0) as -> by
        (change (inject_Z 0) with 0; ring).
      apply Qfloor_Z. }
    rewrite (bind_run _ _ _ _ _ (randInt_run _ _ _ _)).
    assert (Math_floor (random (Datatypes.S s0) *
              (field cfg "nodes" 8 - 1 + 1 - (inject_Z 0 + 1)) + (inject_Z 0 + 1))
            = 1%Z) as ->.
    { unfold Math_floor. rewrite Hn.
      assert (random (Datatypes.S s0) * (1 - 1 + 1 - (inject_Z 0 + 1))
              + (inject_Z 0 + 1) == inject_Z 1) as -> by
        (change (inject_Z 0) with 0; change (inject_Z 1) with 1; ring).
      apply Qfloor_Z. }
    rewrite (bind_run _ _ _ _ _ (randInt_run _ _ _ _)).
    eexists _, _. split; [reflexivity|].
    split; [|rewrite length_app; simpl; lia].
    split; [rewrite length_app; simpl; lia|].
    intros l Hl. apply elem_of_app in Hl as [Hl|Hl]; [by apply Hacc|].
    by apply list_elem_of_singleton in Hl as ->.
  - split; [simpl; lia|]. intros l Hl. by apply elem_of_nil in Hl.
  - simpl. lia.
  - exists (Sankey ["N0"] linkArr), s'.
    split; [by rewrite (bind_run _ _ _ _ _ Hrun)|].
    split; [done|]. split; [|exact Hlinks]. simpl.
    assert (~ (length linkArr < length (range 0 links))%nat); [|lia].
    intros Hlt%length_test. unfold test in Hend. congruence.
Qed.

(** *** boxplot *)

(** X16: without a whole sample ([samples < 1]) a request for at least
    one group fails with a [TypeError]: the sorted array is empty and its
    first element is [undefined]. *)
Theorem generateBoxplot_no_sample (random : nat -> Q) (cfg : config) (s : nat) :
  field cfg "samples" 30 < 1 -> 0 < field cfg "groups" 5 ->
  generateBoxplot random cfg s = Throw TypeError.
Proof.
  intros Hs Hg. unfold generateBoxplot, Array_from.
  rewrite (ToLength_zero _ Hs).
  destruct (range_cons 0 (field cfg "groups" 5) Hg) as [rest ->].
  reflexivity.
Qed.

(** *** tree, treemap and sunburst *)

(** A depth that is not a natural number is never counted down to 0: the
    recursion goes on until the call stack is exhausted. *)
Lemma buildTree_overflow (random : nat -> Q) (breadth : Q) (prefix : string)
    (stack : nat) :
  (1 <= ToLength breadth)%nat ->
  forall depth level s, (forall d : nat, ~ depth == num d) ->
    buildTree random stack depth breadth level prefix s = Throw RangeError.
Proof.
  intros Hk. induction stack as [|stack IH]; intros depth level s Hd; [done|].
  simpl. assert (Qeq_bool depth 0 = false) as ->.
  { apply not_true_is_false. intros H%Qeq_bool_eq. by apply (Hd 0%nat). }
  unfold Array_from. destruct (ToLength breadth) as [|k]; [lia|].
  simpl. unfold bind at 1. unfold bind at 1. rewrite IH; [done|].
  intros d H. apply (Hd (Datatypes.S d)). unfold num in *.
  rewrite Nat2Z.inj_succ. unfold Z.succ. rewrite inject_Z_plus.
  change (inject_Z 1) with 1. lra.
Qed.

(** X17: a depth that is not a natural number (negative, or with a
    fractional part), with room for at least one child per node, makes the
    tree generator fail with a [RangeError], however deep the call stack
    is. *)
Theorem generateTree_depth_not_natural
    (random : nat -> Q) (stack : nat) (cfg : config) (s : nat) :
  (forall d : nat, ~ field cfg "depth" 3 == num d) ->
  1 <= field cfg "breadth" 3 ->
  generateTree random stack cfg s = Throw RangeError /\
  generateTreemap random stack cfg s = Throw RangeError /\
  generateSunburst random stack cfg s = Throw RangeError.
Proof.
  intros Hd Hb.
  assert (generateTree random stack cfg s = Throw RangeError) as H; [|done].
  unfold generateTree.
  assert (1 <= ToLength (field cfg "breadth" 3))%nat as Hk.
  { apply (ToLength_spec 0). change (num 0) with 0. lra. }
  unfold bind. by rewrite (buildTree_overflow random _ "T" stack Hk).
Qed.

(** X18: a natural depth [d + 1] and a breadth of [k >= 1] whole units,
    with a call stack deeper than [d + 1], give a root named root over
    [d + 1] levels of nodes: every node above the last level has exactly
    [k] children and no value, the nodes of the last level are leaves. *)
Theorem generateTree_levels
    (random : nat -> Q) (stack : nat) (cfg : config) (s : nat) (d : nat) :
  let k := ToLength (field cfg "breadth" 3) in
  field cfg "depth" 3 == num (Datatypes.S d) -> (1 <= k)%nat ->
  (Datatypes.S d < stack)%nat ->
  exists root s', generateTree random stack cfg s = Ret root s' /\
    t_name root = "root" /\ levels (Datatypes.S d) k root.
Proof.
  intros k Hd Hk Hst. unfold generateTree.
  destruct (buildTree_levels random d stack _ _ 0 "T" s Hd Hst Hk)
    as (kids & s' & Hrun & Hlen & Hlev).
  rewrite (bind_run _ _ _ _ _ Hrun). eexists _, _. split; [reflexivity|].
  split; [done|]. split; [done|]. by exists kids.
Qed.

Lemma mapToApex_walk_children (name : string) (kids : list node) (v : option Z) :
  kids <> [] ->
  mapToApex_walk (Node name (Some kids) v) = concat (mapToApex_walk <$> kids).
Proof.
  intros Hne. destruct kids as [|c cs]; [done|]. simpl. f_equal.
  induction cs as [|c' cs IH]; [done|]. simpl. by rewrite IH.
Qed.

(** Flattening [d] levels of [k] children each visits [k ^ d] leaves. *)
Lemma mapToApex_walk_levels (k d : nat) (n : node) :
  levels d k n -> length (mapToApex_walk n) = (k ^ d)%nat.
Proof.
  revert n. induction d as [|d IH]; intros [name children value].
  - intros [Hc [v Hv]]. simpl in *. by subst.
  - intros [Hv (kids & Hkids & Hlen & Hall)]. simpl in Hv, Hkids.
    subst children value.
    assert (forall l, Forall (levels d k) l ->
      length (concat (mapToApex_walk <$> l)) = (length l * k ^ d)%nat) as Hsum.
    { induction 1 as [|c cs Hc _ IHcs]; [done|].
      rewrite fmap_cons, concat_cons, length_app, (IH c Hc), IHcs. simpl. lia. }
    destruct (decide (kids = [])) as [->|Hne]; [by rewrite <- Hlen|].
    rewrite (mapToApex_walk_children _ _ _ Hne), (Hsum kids Hall), Hlen.
    simpl. lia.
Qed.

(** X19: flattened for the ApexCharts treemap, a generated tree of natural
    depth [d + 1] and breadth [k >= 1] yields exactly [k ^ (d + 1)]
    leaves. *)
Theorem treemap_leaves
    (random : nat -> Q) (stack : nat) (cfg : config) (s : nat) (d : nat) :
  let k := ToLength (field cfg "breadth" 3) in
  field cfg "depth" 3 == num (Datatypes.S d) -> (1 <= k)%nat ->
  (Datatypes.S d < stack)%nat ->
  exists root s', generateTreemap random stack cfg s = Ret root s' /\
    length (mapToApex_walk root) = (k ^ Datatypes.S d)%nat.
Proof.
  intros k Hd Hk Hst. unfold generateTreemap, generateTree.
  destruct (buildTree_levels random d stack _ _ 0 "T" s Hd Hst Hk)
    as (kids & s' & Hrun & Hlen & Hlev).
  rewrite (bind_run _ _ _ _ _ Hrun). eexists _, _. split; [reflexivity|].
  apply mapToApex_walk_levels. split; [done|]. by exists kids.
Qed.

(** *** candlestick *)

(** X20: whatever the configuration and the random values, row [i] is
    stamped [start + i * interval], the first row opens at the two-decimal
    rendering of [base], and every later row opens where the row before it
    closed. *)
Theorem generateCandlestick_chain
    (random : nat -> Q) (now : Q) (cfg : config) (s : nat) :
  let start := field cfg "start" (now - 120 * 86400000) in
  let interval := field cfg "interval" 86400000 in
  exists rows s', generateCandlestick random now cfg s = Ret rows s' /\
    (forall (i : nat) c, rows !! i = Some c -> time c = start + num i * interval) /\
    (forall c, rows !! 0%nat = Some c -> open c = toFixed2 (field cfg "base" 100)) /\
    forall (i : nat) a b, rows !! i = Some a -> rows !! Datatypes.S i = Some b ->
      open b = close a.
Proof.
  intros start interval. unfold generateCandlestick. fold start interval.
  set (body := fun (i : nat) (pd : Q * list candle) => _).
  unfold range.
  destruct (for_counted body 0
    (Z.to_nat (Qceiling (field cfg "points" 120)) - 0)
    (fun k (pd : Q * list candle) (_ : nat) =>
       length pd.2 = k /\
       (pd.2 = [] -> pd.1 = field cfg "base" 100) /\
       (forall c, last pd.2 = Some c -> close c = toFixed2 pd.1) /\
       (forall (i : nat) c, pd.2 !! i = Some c ->
          time c = start + num i * interval) /\
       (forall c, pd.2 !! 0%nat = Some c ->
          open c = toFixed2 (field cfg "base" 100)) /\
       forall (i : nat) a b, pd.2 !! i = Some a ->
         pd.2 !! Datatypes.S i = Some b -> open b = close a))
    with (acc := (field cfg "base" 100, @nil candle)) (s := s)
    as ([price data] & s' & Hrun & _ & _ & _ & Htime & Hfirst & Hadj).
  - intros k [price data] s0 _ (Hlen & Hinit & Hlast & Htime & Hfirst & Hadj).
    simpl in *. eexists (_, _), _. split; [reflexivity|]. simpl.
    split; [rewrite length_app; simpl; lia|].
    split; [by intros ?%app_nil_r_inv|].
    split; [|split; [|split]].
    + intros c Hc. rewrite last_snoc in Hc. by injection Hc as <-.
    + intros i c Hi. apply lookup_app_Some in Hi as [Hi|[Hge Hi]];
        [by apply Htime|].
      apply list_lookup_singleton_Some in Hi as [Hidx <-]. simpl.
      by replace i with k by lia.
    + intros c Hc. destruct data as [|c0 data]; simpl in *.
      * injection Hc as <-. simpl. by rewrite Hinit.
      * by apply Hfirst.
    + intros i a b Ha Hb. apply lookup_app_Some in Hb as [Hb|[Hge Hb]].
      * rewrite lookup_app_l in Ha by (apply lookup_lt_Some in Hb; lia).
        by apply (Hadj i).
      * apply list_lookup_singleton_Some in Hb as [Hidx <-]. simpl.
        rewrite lookup_app_l in Ha by lia. symmetry. apply Hlast.
        rewrite last_lookup. by replace (Nat.pred (length data)) with i by lia.
  - simpl. repeat split; done.
  - exists data, s'. split; [by rewrite (bind_run _ _ _ _ _ Hrun)|]. done.
Qed.

Section MoreGenerators.

Variable random : nat -> Q.
Hypothesis random_range : forall n, 0 <= random n < 1.

(** *** funnel *)

(** X21: with a start value that is not negative, a drop ratio between 0
    and 5/6 and random values in [0, 1), the stages are named Stage1,
    Stage2, ... and every stage value lies between 0 and the rounded start
    value. *)
Theorem generateFunnel_stage_bounds (cfg : config) (s : nat) :
  let startValue := field cfg "startValue" 1000 in
  let drop := field cfg "drop" 0.25 in
  0 <= startValue -> 0 <= drop -> drop * 1.2 <= 1 ->
  exists data s', generateFunnel random cfg s = Ret data s' /\
    forall (i : nat) st, data !! i = Some st ->
      s_name st = "Stage" +:+ str (Z.of_nat i + 1) /\
      (0 <= s_value st <= Math_round startValue)%Z.
Proof.
  intros startValue drop Hstart Hdrop Hdrop'. unfold generateFunnel.
  fold startValue drop.
  set (body := fun (i : nat) (cd : Q * list stage) => _).
  unfold range.
  destruct (for_counted body 0
    (Z.to_nat (Qceiling (field cfg "stages" 5)) - 0)
    (fun k (cd : Q * list stage) (_ : nat) =>
       length cd.2 = k /\ 0 <= cd.1 <= startValue /\
       forall (i : nat) st, cd.2 !! i = Some st ->
         s_name st = "Stage" +:+ str (Z.of_nat i + 1) /\
         (0 <= s_value st <= Math_round startValue)%Z))
    with (acc := (startValue, @nil stage)) (s := s)
    as ([current data] & s' & Hrun & _ & _ & Hdata).
  - intros k [current data] s0 _ (Hlen & [Hc0 Hc1] & Hdata). simpl in *.
    eexists (_, _), _. split; [reflexivity|]. simpl.
    destruct (random_range s0) as [Hr0 Hr1].
    destruct (decay_step current drop (random s0 * (1.2 - 0.8) + 0.8))
      as [Hnew0 Hnew1]; try lra.
    split; [rewrite length_app; simpl; lia|]. split; [lra|].
    intros i st Hi. apply lookup_app_Some in Hi as [Hi|[Hge Hi]];
      [by apply Hdata|].
    apply list_lookup_singleton_Some in Hi as [Hidx <-]. simpl.
    replace i with k by lia. split; [done|]. split.
    + apply Math_round_ge. by change (inject_Z 0) with 0.
    + by apply Math_round_mono.
  - simpl. split; [done|]. split; [lra|].
    intros i st Hi. by rewrite lookup_nil in Hi.
  - exists data, s'. split; [by rewrite (bind_run _ _ _ _ _ Hrun)|]. done.
Qed.

(** *** graph *)

Lemma node_name_inj (a b : Z) : "N" +:+ str a = "N" +:+ str b -> a = b.
Proof. intros H. injection H as H. by apply (inj pretty). Qed.

(** X22: with random values in [0, 1), whatever the configuration, no link
    of the graph leads from a node to itself, every link value is one of
    1 .. 5 and every node value one of 1 .. 10. *)
Theorem generateGraph_no_self_loop (cfg : config) (s : nat) :
  exists g s', generateGraph random cfg s = Ret g s' /\
    (forall n, n ∈ g_nodes g -> (1 <= n_value n <= 10)%Z) /\
    forall l, l ∈ g_links g ->
      l_source l <> l_target l /\ (1 <= l_value l <= 5)%Z.
Proof.
  unfold generateGraph, Array_from.
  set (good := fun l : link =>
    l_source l <> l_target l /\ (1 <= l_value l <= 5)%Z).
  destruct (mapM_lookup
    (fun i : nat =>
       let* v := randInt random 1 10 in
       ret (GNode ("N" +:+ str (Z.of_nat i)) ("Node " +:+ str (Z.of_nat i)) v))
    (fun _ n => (1 <= n_value n <= 10)%Z)
    (seq 0 (ToLength (field cfg "nodes" 30)))) with (s := s)
    as (nodeArr & s1 & Hnodes & _ & Hvals).
  { intros i t _.
    destruct (randInt_integers random random_range 1 10 1 10 t)
      as (v & Hv & Hb); [done|done|lia|].
    eexists _, _. split; [by rewrite (bind_run _ _ _ _ _ Hv)|]. done. }
  rewrite (bind_run _ _ _ _ _ Hnodes). unfold range.
  destruct (for_counted
    (fun (i : nat) (links : list link) =>
       let* a := randInt random 0 (num i - 1) in
       let* v := randInt random 1 5 in
       ret (links ++ [Link ("N" +:+ str a) ("N" +:+ str (Z.of_nat i)) v]))
    1 (Z.to_nat (Qceiling (field cfg "nodes" 30)) - 1)
    (fun _ (links : list link) (_ : nat) => Forall good links))
    with (acc := @nil link) (s := s1) as (links & s2 & Hspan & Hgood).
  { intros k links t _ Hall.
    destruct (randInt_integers random random_range 0 (num (1 + k) - 1)
                0 (Z.of_nat k) t) as (a & Ha & Ha0 & Ha1); [done| |lia|].
    { unfold num. rewrite Nat2Z.inj_add, inject_Z_plus.
      change (inject_Z (Z.of_nat 1)) with 1. ring. }
    destruct (randInt_integers random random_range 1 5 1 5 (Datatypes.S t))
      as (v & Hv & Hb); [done|done|lia|].
    eexists _, _. split.
    { rewrite (bind_run _ _ _ _ _ Ha), (bind_run _ _ _ _ _ Hv). reflexivity. }
    apply Forall_app. split; [done|]. apply Forall_singleton. split; [|done].
    cbn [l_source l_target]. intros H%node_name_inj. lia. }
  { constructor. }
  rewrite (bind_run _ _ _ _ _ Hspan).
  destruct (for_counted
    (fun (k : nat) (links : list link) =>
       let* a := randInt random 0 (field cfg "nodes" 30 - 1) in
       let* b := randInt random 0 (field cfg "nodes" 30 - 1) in
       if (a =? b)%Z then ret links
       else let* v := randInt random 1 5 in
            ret (links ++ [Link ("N" +:+ str a) ("N" +:+ str b) v]))
    0 (Z.to_nat (Qceiling (field cfg "extraLinks" 20)) - 0)
    (fun _ (links : list link) (_ : nat) => Forall good links))
    with (acc := links) (s := s2) as (links' & s3 & Hextra & Hgood').
  { intros k acc t _ Hall.
    rewrite (bind_run _ _ _ _ _ (randInt_run _ _ _ _)).
    rewrite (bind_run _ _ _ _ _ (randInt_run _ _ _ _)).
    destruct (Z.eqb_spec
      (Math_floor (random t * (field cfg "nodes" 30 - 1 + 1 - 0) + 0))
      (Math_floor (random (Datatypes.S t) * (field cfg "nodes" 30 - 1 + 1 - 0) + 0)))
      as [Heq|Hne].
    - by exists acc, (Datatypes.S (Datatypes.S t)).
    - destruct (randInt_integers random random_range 1 5 1 5
                  (Datatypes.S (Datatypes.S t)))
        as (v & Hv & Hb); [done|done|lia|].
      eexists _, _. split; [by rewrite (bind_run _ _ _ _ _ Hv)|].
      apply Forall_app. split; [done|]. apply Forall_singleton. split; [|done].
      cbn [l_source l_target]. by intros H%node_name_inj. }
  { exact Hgood. }
  rewrite (bind_run _ _ _ _ _ Hextra).
  exists (Graph nodeArr links'), s3. split; [done|]. split.
  - intros n [i Hi]%list_elem_of_lookup_1.
    by destruct (Hvals i n Hi) as (_ & _ & Hb).
  - intros l Hl. simpl in Hl. rewrite Forall_forall in Hgood'. by apply Hgood'.
Qed.

End MoreGenerators.

(** *** Dispatch *)

Section MoreDispatch.

Variable random : nat -> Q.
Variable now : Q.
Variable stack : nat.
Variable other : Type.
Variable others : string -> config -> M nat other.

(** X23: for none of the twelve names every object inherits does
    [buildMock] raise the unknown-type error: the call returns a value or
    fails with a [TypeError]. *)
Theorem buildMock_inherited_names (type : string) (config : option config) (s : nat) :
  type ∈ Object_prototype ->
  own_property GENERATORS type = None /\
  ((exists v, buildMock random now stack other others type config s = Ret v s) \/
   buildMock random now stack other others type config s = Throw TypeError).
Proof.
  intros H. unfold Object_prototype in H.
  repeat (apply elem_of_cons in H as [->|H]);
    try (split; [reflexivity|]);
    try (right; reflexivity); try (left; eexists; reflexivity).
  by apply elem_of_nil in H.
Qed.

(** A loop whose body fails at some element does not return. *)
Lemma for_aborts {St I A} (body : I -> A -> M St A) (idx : list I) (i : I) :
  i ∈ idx -> (forall acc s, exists e, body i acc s = Throw e) ->
  forall acc s, exists e, for_ idx body acc s = Throw e.
Proof.
  intros Hin Hfail. induction idx as [|j idx IH]; intros acc s.
  - by apply elem_of_nil in Hin.
  - simpl. unfold bind. destruct (body j acc s) as [acc' s'|e] eqn:Hb.
    + apply elem_of_cons in Hin as [->|Hin].
      * destruct (Hfail acc s) as [e He]. congruence.
      * by apply IH.
    + by exists e.
Qed.

(** X24: a request, string or object, for a type that is neither
    registered nor inherited makes the whole bundle fail, wherever it
    stands in the list: no partial bundle is returned. *)
Theorem buildMockBundle_all_or_nothing
    (requests : list request) (r : request) (k : string) (s : nat) :
  r ∈ requests -> key_of r = Some k ->
  own_property GENERATORS k = None -> k ∉ Object_prototype ->
  exists e, buildMockBundle random now stack other others (Some requests) s
            = Throw e.
Proof.
  intros Hr Hk Hown Hproto. unfold buildMockBundle. simpl.
  apply (for_aborts _ requests r Hr). intros acc t.
  exists (Error ("Unknown mock type: " +:+ k)).
  destruct r as [name|ty cf|]; simpl in Hk; [| |done]; injection Hk as <-;
    unfold bind;
    by rewrite (buildMock_unknown random now stack other others _ _ t Hown Hproto).
Qed.

End MoreDispatch.

(** ** More on the drawing hooks *)

(** On a plot whose every series has a value for every x position, the bar
    hook draws one rectangle per position and series, position after
    position, in the colour of the series. *)
Lemma barPlugin_full_grid (u : uPlot) (c : Canvas)
    (xs : list (option Q)) (cols : list (list (option Q))) :
  u_data u = xs :: cols -> length (u_series u) = Datatypes.S (length cols) ->
  Forall (fun col : list (option Q) =>
            forall i : nat, (i < length xs)%nat -> exists v, col !! i = Some (Some v))
         cols ->
  exists c' rects, barPlugin_draw u c = Ret tt c' /\
    drawn c' = drawn c ++ rects /\
    length rects = (length xs * length cols)%nat /\
    forall (j : nat) r, rects !! j = Some r ->
      exists x y w h, r = FillRect (palette_at (j mod length cols)) x y w h.
Proof.
  intros Hdata Hseries Hfull. unfold barPlugin_draw. rewrite Hdata, Hseries.
  replace (Z.of_nat (Datatypes.S (length cols)) - 1)%Z
    with (Z.of_nat (length cols)) by lia.
  set (n := length cols) in *. cbv zeta.
  destruct (Z.leb_spec (Z.of_nat n) 0) as [Hn|Hn].
  { exists c, []. split; [done|]. split; [by rewrite app_nil_r|].
    split; [simpl; nia|]. intros j r Hj. by rewrite lookup_nil in Hj. }
  change ((xs :: cols) !! 0%nat) with (Some xs).
  rewrite (bind_run _ _ _ _ _ (eq_refl : defined (Some xs) c = Ret xs c)).
  destruct (Nat.eqb_spec (length xs) 0) as [Hlen|Hlen].
  { exists c, []. split; [done|]. split; [by rewrite app_nil_r|].
    split; [simpl; nia|]. intros j r Hj. by rewrite lookup_nil in Hj. }
  rewrite Nat2Z.id.
  set (gap := if (1 <? length xs)%nat then _ else _).
  set (body := fun (i : nat) (_ : unit) => _).
  destruct (for_counted body 0 (length xs)
    (fun i (_ : unit) (cv : Canvas) =>
       exists rects, drawn cv = drawn c ++ rects /\
         length rects = (i * n)%nat /\
         forall (j : nat) r, rects !! j = Some r ->
           exists x y w h, r = FillRect (palette_at (j mod n)) x y w h))
    with (acc := tt) (s := c) as ([] & c' & Hrun & rects & Hdrawn & Hrl & Hrects).
  - intros i [] cv Hi (rects & Hdrawn & Hrl & Hrects). unfold body.
    change (0 + i)%nat with i.
    match goal with |- context [for_ (seq 1 n) ?f] => set (inner := f) end.
    destruct (for_counted inner 1 n
      (fun k (_ : unit) (cv : Canvas) =>
         exists rects, drawn cv = drawn c ++ rects /\
           length rects = (i * n + k)%nat /\
           forall (j : nat) r, rects !! j = Some r ->
             exists x y w h, r = FillRect (palette_at (j mod n)) x y w h))
      with (acc := tt) (s := cv)
      as ([] & cv' & Hrow & rects' & Hdrawn' & Hrl' & Hrects').
    2:{ exists rects. split; [done|]. split; [lia|done]. }
    2:{ exists tt, cv'. split; [exact Hrow|]. exists rects'.
        split; [done|]. split; [lia|done]. }
    intros k [] cv1 Hk (rects1 & Hdrawn1 & Hrl1 & Hrects1). unfold inner.
    change ((xs :: cols) !! (1 + k)%nat) with (cols !! k).
    destruct (lookup_lt_is_Some_2 cols k Hk) as [col Hcol]. rewrite Hcol.
    rewrite Forall_forall in Hfull.
    destruct (Hfull col (list_elem_of_lookup_2 _ _ _ Hcol) i Hi) as [v Hv].
    rewrite (bind_run _ _ _ _ _ (eq_refl : defined (Some col) cv1 = Ret col cv1)).
    rewrite Hv. replace (1 + k - 1)%nat with k by lia.
    eexists tt, _. split; [reflexivity|].
    eexists (rects1 ++ [_]). split.
    { cbv beta iota delta [drawn fillRect set_fillStyle bind fillStyle].
      fold (drawn cv1). rewrite Hdrawn1. by rewrite <- app_assoc. }
    split; [rewrite length_app; simpl; lia|].
    intros j r Hj. apply lookup_app_Some in Hj as [Hj|[Hge Hj]];
      [by apply Hrects1|].
    apply list_lookup_singleton_Some in Hj as [Hidx <-].
    assert (j = i * n + k)%nat as -> by lia.
    destruct (grid_position n k i Hk) as [-> _]. by eexists _, _, _, _.
  - exists []. split; [by rewrite app_nil_r|]. split; [done|].
    intros j r Hj. by rewrite lookup_nil in Hj.
  - exists c', rects. split; [exact Hrun|]. split; [exact Hdrawn|].
    split; [exact Hrl|exact Hrects].
Qed.

(** X25: for bar data whose every series holds one value, none missing,
    per category, the bar hook draws one rectangle per category and
    series, category after category, each in the palette colour of its
    series, and nothing else. *)
Theorem barPlugin_bar_grid
    (raw : BarData) (toPixel : Q -> scale -> Q) (box : BBox) (c : Canvas) :
  (forall b, b ∈ series raw ->
     length (bs_data b) = length (categories raw) /\ Forall is_Some (bs_data b)) ->
  exists c' rects,
    barPlugin_draw (plot (buildUplotConfig_bar raw) toPixel box) c = Ret tt c' /\
    drawn c' = drawn c ++ rects /\
    length rects = (length (categories raw) * length (series raw))%nat /\
    forall (j : nat) r, rects !! j = Some r ->
      exists x y w h,
        r = FillRect (palette_at (j mod length (series raw))) x y w h.
Proof.
  intros Hraw.
  destruct (barPlugin_full_grid
    (plot (buildUplotConfig_bar raw) toPixel box) c
    (imap (fun i _ => Some (num i)) (categories raw))
    (map bs_data (series raw))) as (c' & rects & Hrun & Hd & Hl & Hr).
  - done.
  - simpl. by rewrite !length_map.
  - apply Forall_forall. intros col [b [-> Hb]]%list_elem_of_fmap_1.
    destruct (Hraw b Hb) as [Hlen Hsome]. intros i Hi.
    rewrite length_imap, <- Hlen in Hi.
    destruct (lookup_lt_is_Some_2 _ _ Hi) as [cell Hcell].
    rewrite Forall_forall in Hsome.
    destruct (Hsome cell (list_elem_of_lookup_2 _ _ _ Hcell)) as [v ->].
    by exists v.
  - rewrite length_imap, length_map in Hl. rewrite length_map in Hr.
    by exists c', rects.
Qed.

(** X26: for any list of funnel stages, the bar hook on the funnel
    configuration draws exactly one rectangle per stage, all in the first
    palette colour, and nothing else. *)
Theorem barPlugin_funnel
    (raw : list stage) (toPixel : Q -> scale -> Q) (box : BBox) (c : Canvas) :
  exists c' rects,
    barPlugin_draw (plot (buildUplotConfig_funnel raw) toPixel box) c = Ret tt c' /\
    drawn c' = drawn c ++ rects /\
    length rects = length raw /\
    forall r, r ∈ rects -> exists x y w h, r = FillRect "#2563eb" x y w h.
Proof.
  destruct (barPlugin_full_grid
    (plot (buildUplotConfig_funnel raw) toPixel box) c
    (imap (fun i _ => Some (num i)) raw)
    [map (fun r => Some (inject_Z (s_value r))) raw])
    as (c' & rects & Hrun & Hd & Hl & Hr).
  - done.
  - done.
  - apply Forall_singleton. intros i Hi. rewrite length_imap in Hi.
    destruct (lookup_lt_is_Some_2 raw i Hi) as [st Hst].
    exists (inject_Z (s_value st)).
    change (map ?f raw) with (f <$> raw). by rewrite list_lookup_fmap, Hst.
  - rewrite length_imap in Hl. exists c', rects.
    split; [exact Hrun|]. split; [exact Hd|]. split; [simpl in Hl; lia|].
    intros r [j Hj]%list_elem_of_lookup_1.
    destruct (Hr j r Hj) as (x & y & w & h & ->). cbn [length].
    rewrite Nat.mod_1_r. by exists x, y, w, h.
Qed.

(** *** heat map *)

Lemma minimum_le (v : Q) (vs : list Q) :
  minimum v vs <= v /\ forall x, x ∈ vs -> minimum v vs <= x.
Proof.
  unfold minimum. revert v. induction vs as [|a vs IH]; intros v.
  - split; [simpl; lra|]. intros x Hx. by apply elem_of_nil in Hx.
  - simpl. destruct (IH (Math_min v a)) as [H1 H2].
    pose proof (Math_min_spec v a) as (Ha & Hb & _).
    split; [lra|]. intros x [->|Hx]%elem_of_cons; [lra|by apply H2].
Qed.

Lemma maximum_ge (v : Q) (vs : list Q) :
  v <= maximum v vs /\ forall x, x ∈ vs -> x <= maximum v vs.
Proof.
  unfold maximum. revert v. induction vs as [|a vs IH]; intros v.
  - split; [simpl; lra|]. intros x Hx. by apply elem_of_nil in Hx.
  - simpl. destruct (IH (Math_max v a)) as [H1 H2].
    pose proof (Math_max_spec v a) as (Ha & Hb & _).
    split; [lra|]. intros x [->|Hx]%elem_of_cons; [lra|by apply H2].
Qed.

Lemma colour_component (t : Q) :
  0 <= t <= 1 -> (0 <= Math_round (t * 255) <= 255)%Z.
Proof.
  intros [H0 H1]. split.
  - apply Math_round_ge. change (inject_Z 0) with 0. lra.
  - apply Math_round_le. change (inject_Z 255) with 255. lra.
Qed.

(** X27: whenever the heat-map hook draws with finite numbers (labels on
    both axes and at least two different values, or no cell at all), it
    draws exactly one rectangle per cell, in the order of the cells; the
    rectangle of a cell [(x, y, value)] has the size of one grid cell, lies
    [x] cells right of and [y] cells below the corner of the plotting area,
    and its red and blue colour components are integers of 0 .. 255. *)
Theorem heatmapPlugin_cells
    (h : heatmap) (u : uPlot) (c : Canvas) (draw : Draw unit) :
  let cw := width (bbox u) / num (length (xLabels h)) in
  let ch := height (bbox u) / num (length (yLabels h)) in
  heatmapPlugin_draw h u = Some draw ->
  exists c' rects, draw c = Ret tt c' /\
    drawn c' = drawn c ++ rects /\
    length rects = length (cells h) /\
    forall (j : nat) r, rects !! j = Some r ->
      exists (x y : nat) (v : Q) (red blue : Z),
        cells h !! j = Some (x, y, v) /\
        r = FillRect ("rgb(" +:+ str red +:+ ", 100, " +:+ str blue +:+ ")")
                     (left (bbox u) + num x * cw) (top (bbox u) + num y * ch)
                     cw ch /\
        (0 <= red <= 255)%Z /\ (0 <= blue <= 255)%Z.
Proof.
  intros cw ch. unfold heatmapPlugin_draw. fold cw ch.
  destruct (map snd (cells h)) as [|v vs] eqn:Hvals.
  { intros [= <-]. apply map_eq_nil in Hvals. rewrite Hvals.
    exists c, []. split; [done|]. split; [by rewrite app_nil_r|].
    split; [done|]. intros j r Hj. by rewrite lookup_nil in Hj. }
  destruct (_ || _) eqn:Hfinite; [done|]. intros [= <-].
  apply orb_false_iff in Hfinite as [_ Hne]. apply Qeq_bool_neq in Hne.
  destruct (minimum_le v vs) as [Hmin0 Hmin].
  destruct (maximum_ge v vs) as [Hmax0 Hmax].
  set (minVal := minimum v vs) in *. set (maxVal := maximum v vs) in *.
  assert (forall x, x ∈ v :: vs -> minVal <= x <= maxVal) as Hbounds.
  { intros x [->|Hx]%elem_of_cons; [done|]. split; [by apply Hmin|by apply Hmax]. }
  assert (minVal < maxVal) as Hlt by lra.
  match goal with |- context [for_ (cells h) ?f] => set (body := f) end.
  destruct (for_each_state body (cells h)
    (fun k (_ : unit) (cv : Canvas) =>
       exists rects, drawn cv = drawn c ++ rects /\ length rects = k /\
         forall (j : nat) r, rects !! j = Some r ->
           exists (x y : nat) (val : Q) (red blue : Z),
             cells h !! j = Some (x, y, val) /\
             r = FillRect ("rgb(" +:+ str red +:+ ", 100, " +:+ str blue +:+ ")")
                          (left (bbox u) + num x * cw)
                          (top (bbox u) + num y * ch) cw ch /\
             (0 <= red <= 255)%Z /\ (0 <= blue <= 255)%Z))
    with (acc := tt) (s := c) as ([] & c' & Hrun & rects & Hd & Hl & Hr).
  - intros k [[x y] val] [] cv Hk (rects & Hd & Hl & Hr). unfold body.
    eexists tt, _. split; [reflexivity|].
    eexists (rects ++ [_]). split.
    { cbv beta iota delta [drawn fillRect set_fillStyle bind fillStyle].
      fold (drawn cv). rewrite Hd. by rewrite <- app_assoc. }
    split; [rewrite length_app; simpl; lia|].
    intros j r Hj. apply lookup_app_Some in Hj as [Hj|[Hge Hj]];
      [by apply Hr|].
    apply list_lookup_singleton_Some in Hj as [Hidx <-].
    assert (j = k) as -> by lia.
    assert (val ∈ v :: vs) as Hin.
    { rewrite <- Hvals. apply (list_elem_of_fmap_2' snd _ (x, y, val)); [|done].
      by eapply list_elem_of_lookup_2. }
    destruct (percent_unit minVal maxVal val Hlt (Hbounds val Hin)) as [H0 H1].
    eexists x, y, val, _, _. split; [exact Hk|]. split; [reflexivity|].
    split; apply colour_component; lra.
  - exists []. split; [by rewrite app_nil_r|]. split; [done|].
    intros j r Hj. by rewrite lookup_nil in Hj.
  - by exists c', rects.
Qed.

(** ** Concrete runs of the further properties *)


Lemma generateLine_clamped_witness :
  field ∅ "min" 0 <= field ∅ "max" 100 /\
  exists out s', generateLine walk 0 ∅ 0%nat = Ret out s' /\
    length out = length (range 0 (field ∅ "series" 2)).
Proof.
  split; [by vm_compute|].
  destruct (generateLine_clamped walk 0 ∅ 0%nat) as (out & s' & Hrun & Hlen & _);
    [by vm_compute|].
  exists out, s'. split; [exact Hrun|exact Hlen].
Defined.

Lemma generateBar_rectangular_witness :
  (forall n, 0 <= walk n < 1) /\ field ∅ "min" 10 <= field ∅ "max" 120 /\
  exists d s', generateBar walk ∅ 0%nat = Ret d s' /\
    length (series d) = ToLength (field ∅ "series" 2).
Proof.
  split; [exact walk_range|]. split; [by vm_compute|].
  destruct (generateBar_rectangular walk walk_range ∅ 0%nat)
    as (d & s' & Hrun & _ & Hlen & _); [by vm_compute|].
  exists d, s'. split; [exact Hrun|exact Hlen].
Defined.

Lemma generatePie_slices_witness :
  (forall n, 0 <= walk n < 1) /\ field ∅ "min" 10 <= field ∅ "max" 200 /\
  exists out s', generatePie walk ∅ 0%nat = Ret out s' /\
    length out = ToLength (field ∅ "slices" 6).
Proof.
  split; [exact walk_range|]. split; [by vm_compute|].
  destruct (generatePie_slices walk walk_range ∅ 0%nat)
    as (out & s' & Hrun & Hlen & _); [by vm_compute|].
  exists out, s'. split; [exact Hrun|exact Hlen].
Defined.

Lemma generatePictorialBar_entries_witness :
  (forall n, 0 <= walk n < 1) /\ field ∅ "min" 10 <= field ∅ "max" 150 /\
  exists out s', generatePictorialBar walk ∅ 0%nat = Ret out s' /\
    length out = ToLength (field ∅ "categories" 6).
Proof.
  split; [exact walk_range|]. split; [by vm_compute|].
  destruct (generatePictorialBar_entries walk walk_range ∅ 0%nat)
    as (out & s' & Hrun & Hlen & _); [by vm_compute|].
  exists out, s'. split; [exact Hrun|exact Hlen].
Defined.

Lemma generateRadar_axes_witness :
  (forall n, 0 <= walk n < 1) /\ field ∅ "min" 0 <= field ∅ "max" 100 /\
  exists d s', generateRadar walk ∅ 0%nat = Ret d s' /\
    length (r_series d) = ToLength (field ∅ "series" 3).
Proof.
  split; [exact walk_range|]. split; [by vm_compute|].
  destruct (generateRadar_axes walk walk_range ∅ 0%nat)
    as (d & s' & Hrun & _ & Hlen & _); [by vm_compute|].
  exists d, s'. split; [exact Hrun|exact Hlen].
Defined.

Lemma generateGauge_reading_witness :
  (forall n, 0 <= walk n < 1) /\ field ∅ "min" 0 <= field ∅ "max" 100 /\
  exists g s', generateGauge walk ∅ 0%nat = Ret g s' /\
    toFixed2 (field ∅ "min" 0) <= g_value g <= toFixed2 (field ∅ "max" 100).
Proof.
  split; [exact walk_range|]. split; [by vm_compute|].
  destruct (generateGauge_reading walk walk_range ∅ 0%nat)
    as (g & s' & Hrun & _ & _ & Hb & _); [by vm_compute|].
  exists g, s'. split; [exact Hrun|exact Hb].
Defined.

(** Coinciding bounds: the zero range is replaced by 1. *)
Lemma buildConfig_gauge_segments_witness :
  g_min (Gauge 5 5 5) <= g_value (Gauge 5 5 5) <= g_max (Gauge 5 5 5) /\
  0 <= (buildConfig_gauge (Gauge 5 5 5)).1 <= 100.
Proof.
  split; [by vm_compute|].
  apply (buildConfig_gauge_segments (Gauge 5 5 5)). by vm_compute.
Defined.

Lemma gaugePlugin_foreground_within_witness :
  g_min (Gauge 30 0 100) < g_max (Gauge 30 0 100) /\
  g_min (Gauge 30 0 100) <= g_value (Gauge 30 0 100) <= g_max (Gauge 30 0 100) /\
  0 <= width (bbox (plot (MkOpts [] []) wide area)) /\
  exists c', gaugePlugin_draw no_rendering (Gauge 30 0 100)
               (plot (MkOpts [] []) wide area) blank = Ret tt c'.
Proof.
  split; [by vm_compute|]. split; [by vm_compute|]. split; [by vm_compute|].
  destruct (gaugePlugin_foreground_within no_rendering (Gauge 30 0 100)
              (plot (MkOpts [] []) wide area) blank)
    as (c' & y & text & tx & ty & Hrun & _ & _);
    [by vm_compute|by vm_compute|by vm_compute|].
  exists c'. exact Hrun.
Defined.

Lemma generateScatter_no_cluster_witness :
  field no_clusters "clusters" 3 < 1 /\ 0 < field no_clusters "points" 500 /\
  generateScatter walk no_clusters 0%nat = Throw TypeError.
Proof.
  split; [by vm_compute|]. split; [by vm_compute|].
  apply (generateScatter_no_cluster walk no_clusters 0%nat); by vm_compute.
Defined.



Lemma generateSankey_single_node_witness :
  field single_node "nodes" 8 == 1 /\
  (length (range 0 (field single_node "links" 15)) <= 3)%nat /\
  exists d s', generateSankey walk 3 single_node 0%nat = Ret (Some d) s' /\
    sk_nodes d = ["N0"] /\
    forall l, l ∈ sk_links d -> l_source l = "N0" /\ l_target l = "N1".
Proof.
  split; [by vm_compute|]. split; [vm_compute; lia|].
  destruct (generateSankey_single_node walk 3 single_node 0%nat)
    as (d & s' & Hrun & Hnodes & _ & Hlinks); [by vm_compute|vm_compute; lia|].
  exists d, s'. split; [exact Hrun|]. split; [exact Hnodes|exact Hlinks].
Defined.

Lemma generateBoxplot_no_sample_witness :
  field no_samples "samples" 30 < 1 /\ 0 < field no_samples "groups" 5 /\
  generateBoxplot walk no_samples 0%nat = Throw TypeError.
Proof.
  split; [by vm_compute|]. split; [by vm_compute|].
  apply (generateBoxplot_no_sample walk no_samples 0%nat); by vm_compute.
Defined.

Lemma half_depth_not_natural (d : nat) : ~ field half_depth "depth" 3 == num d.
Proof.
  change (field half_depth "depth" 3) with 2.5.
  unfold Qeq, num. simpl. lia.
Qed.

(** Two and a half levels, on a stack of a thousand frames. *)
Lemma generateTree_depth_not_natural_witness :
  (forall d : nat, ~ field half_depth "depth" 3 == num d) /\
  1 <= field half_depth "breadth" 3 /\
  generateTree walk 1000 half_depth 0%nat = Throw RangeError.
Proof.
  split; [exact half_depth_not_natural|]. split; [by vm_compute|].
  apply (generateTree_depth_not_natural walk 1000 half_depth 0%nat);
    [exact half_depth_not_natural|by vm_compute].
Defined.

Lemma generateTree_levels_witness :
  field tree_3_2 "depth" 3 == num 3 /\
  (1 <= ToLength (field tree_3_2 "breadth" 3))%nat /\ (3 < 10)%nat /\
  exists root s', generateTree walk 10 tree_3_2 0%nat = Ret root s' /\
    levels 3 (ToLength (field tree_3_2 "breadth" 3)) root.
Proof.
  split; [by vm_compute|]. split; [vm_compute; lia|]. split; [lia|].
  destruct (generateTree_levels walk 10 tree_3_2 0%nat 2)
    as (root & s' & Hrun & _ & Hlev); [by vm_compute|vm_compute; lia|lia|].
  exists root, s'. split; [exact Hrun|exact Hlev].
Defined.

Lemma treemap_leaves_witness :
  field tree_3_2 "depth" 3 == num 3 /\
  (1 <= ToLength (field tree_3_2 "breadth" 3))%nat /\ (3 < 10)%nat /\
  exists root s', generateTreemap walk 10 tree_3_2 0%nat = Ret root s' /\
    length (mapToApex_walk root) = 8%nat.
Proof.
  split; [by vm_compute|]. split; [vm_compute; lia|]. split; [lia|].
  destruct (treemap_leaves walk 10 tree_3_2 0%nat 2)
    as (root & s' & Hrun & Hlen); [by vm_compute|vm_compute; lia|lia|].
  exists root, s'. split; [exact Hrun|exact Hlen].
Defined.

Lemma generateFunnel_stage_bounds_witness :
  (forall n, 0 <= walk n < 1) /\
  0 <= field funnel_5 "startValue" 1000 /\ 0 <= field funnel_5 "drop" 0.25 /\
  field funnel_5 "drop" 0.25 * 1.2 <= 1 /\
  exists data s', generateFunnel walk funnel_5 0%nat = Ret data s' /\
    forall (i : nat) st, data !! i = Some st ->
      (0 <= s_value st <= Math_round (field funnel_5 "startValue" 1000))%Z.
Proof.
  split; [exact walk_range|]. split; [by vm_compute|]. split; [by vm_compute|].
  split; [by vm_compute|].
  destruct (generateFunnel_stage_bounds walk walk_range funnel_5 0%nat)
    as (data & s' & Hrun & Hdata); [by vm_compute|by vm_compute|by vm_compute|].
  exists data, s'. split; [exact Hrun|].
  intros i st Hi. destruct (Hdata i st Hi) as [_ Hb]. exact Hb.
Defined.

Lemma generateGraph_no_self_loop_witness :
  (forall n, 0 <= walk n < 1) /\
  exists g s', generateGraph walk ∅ 0%nat = Ret g s' /\
    forall l, l ∈ g_links g -> l_source l <> l_target l.
Proof.
  split; [exact walk_range|].
  destruct (generateGraph_no_self_loop walk walk_range ∅ 0%nat)
    as (g & s' & Hrun & _ & Hlinks).
  exists g, s'. split; [exact Hrun|].
  intros l Hl. destruct (Hlinks l Hl) as [Hne _]. exact Hne.
Defined.

Lemma buildMock_inherited_names_witness :
  "valueOf" ∈ Object_prototype /\
  buildMock walk 0 10 unit stub "valueOf" None 0%nat = Throw TypeError.
Proof.
  assert ("valueOf" ∈ Object_prototype) as Hin
    by (apply (bool_decide_unpack _); by vm_compute).
  split; [exact Hin|].
  destruct (buildMock_inherited_names walk 0 10 unit stub "valueOf" None
              0%nat Hin) as [_ [[v Hv]|Hthrow]]; [discriminate Hv|exact Hthrow].
Defined.

Lemma buildMockBundle_all_or_nothing_witness :
  RString "nope" ∈ unknown_second /\ key_of (RString "nope") = Some "nope" /\
  own_property GENERATORS "nope" = None /\ ("nope" ∉ Object_prototype) /\
  exists e, buildMockBundle walk 0 10 unit stub (Some unknown_second) 0%nat
            = Throw e.
Proof.
  assert (RString "nope" ∈ unknown_second) as Hin by (right; left).
  assert ("nope" ∉ Object_prototype) as Hout
    by (apply (bool_decide_unpack _); by vm_compute).
  split; [exact Hin|]. split; [reflexivity|]. split; [reflexivity|].
  split; [exact Hout|].
  apply (buildMockBundle_all_or_nothing walk 0 10 unit stub unknown_second
           (RString "nope") "nope" 0%nat Hin eq_refl eq_refl Hout).
Defined.

Lemma bars_3_2_full (a1 a2 a3 b1 b2 b3 : Q) :
  forall b, b ∈ series (bars_3_2 a1 a2 a3 b1 b2 b3) ->
    length (bs_data b) = length (categories (bars_3_2 a1 a2 a3 b1 b2 b3)) /\
    Forall is_Some (bs_data b).
Proof.
  intros b Hb. simpl in Hb.
  repeat (apply elem_of_cons in Hb as [->|Hb]);
    [| |by apply elem_of_nil in Hb]; (split; [done|]); repeat constructor; done.
Qed.

Lemma barPlugin_bar_grid_witness :
  (forall b, b ∈ series (bars_3_2 10 20 30 5 15 25) ->
     length (bs_data b) = length (categories (bars_3_2 10 20 30 5 15 25)) /\
     Forall is_Some (bs_data b)) /\
  exists c' rects,
    barPlugin_draw (plot (buildUplotConfig_bar (bars_3_2 10 20 30 5 15 25))
                         wide area) blank = Ret tt c' /\
    drawn c' = drawn blank ++ rects /\ length rects = 6%nat.
Proof.
  split; [apply bars_3_2_full|].
  destruct (barPlugin_bar_grid (bars_3_2 10 20 30 5 15 25) wide area blank
              (bars_3_2_full 10 20 30 5 15 25))
    as (c' & rects & Hrun & Hd & Hl & _).
  exists c', rects. split; [exact Hrun|]. split; [exact Hd|exact Hl].
Defined.

(** Two cells of different heat on a 800 by 400 area. *)
Lemma heatmapPlugin_cells_witness :
  exists draw,
    heatmapPlugin_draw heat_2_1 (plot (MkOpts [] []) wide area) = Some draw /\
    exists c' rects, draw blank = Ret tt c' /\
      drawn c' = drawn blank ++ rects /\ length rects = 2%nat.
Proof.
  eexists. split; [reflexivity|].
  destruct (heatmapPlugin_cells heat_2_1 (plot (MkOpts [] []) wide area) blank
              _ eq_refl) as (c' & rects & Hrun & Hd & Hl & _).
  exists c', rects. split; [exact Hrun|]. split; [exact Hd|exact Hl].
Defined.
